(** * Invalid-curve attack: the test oracle, the timeout wrapper and the
      factorisation glue, embedded and checked against the specification.

    Python integers are unbounded, so they are [Z]; [%] and [//] with a
    positive right operand are [Z.modulo] and [Z.div].  Exceptions are
    values of [exn] carried by an error monad. *)

From Equations Require Import Equations.
From Stdlib Require Import ZArith Lia List Bool Zcong Zdivisibility Sorted.
Import ListNotations.
Local Open Scope Z_scope.

(* ===================================================================== *)
(** ** Python exceptions as an error monad *)
(* ===================================================================== *)

Module Py.

Inductive exn : Type :=
| ValueError
| TypeError
| ZeroDivisionError
| AssertionError.

Inductive outcome (A : Type) : Type :=
| Ok (a : A)
| Raise (e : exn).
Arguments Ok {A} a.
Arguments Raise {A} e.

Definition bind {A B : Type} (m : outcome A) (k : A -> outcome B) : outcome B :=
  match m with
  | Ok a => k a
  | Raise e => Raise e
  end.

(** [try: body except: handler] with a bare [except], which catches
    every exception. *)
Definition try_except {A : Type} (body : outcome A) (handler : outcome A)
  : outcome A :=
  match body with
  | Ok a => Ok a
  | Raise _ => handler
  end.

(** A list comprehension whose element expression may raise. *)
Fixpoint comprehension {A B : Type} (f : A -> outcome B) (l : list A)
  : outcome (list B) :=
  match l with
  | [] => Ok []
  | x :: l' =>
      bind (f x) (fun y => bind (comprehension f l') (fun ys => Ok (y :: ys)))
  end.

End Py.
Import Py.

Notation "x <- m ;; k" := (bind m (fun x => k))
  (at level 61, m at next level, right associativity).

(* ===================================================================== *)
(** ** tests/small_p/server_test_small_p.py, tests/big_p/server_test_big_p.py *)
(* ===================================================================== *)

Module Server.

(** A point is a Python pair of integers; [(0, 0)] stands for the point
    at infinity. *)
Definition point : Type := (Z * Z)%type.

(** Tuple equality [P == Q]. *)
Definition point_eqb (P Q : point) : bool :=
  (fst P =? fst Q) && (snd P =? snd Q).

(** The dictionary [E = {'a': a, 'b': b, 'p': p}]. *)
Record curve : Type := mkCurve { Ea : Z; Eb : Z; Ep : Z }.

(** Modelled from the spec: [inverse] is [Crypto.Util.number.inverse], a
    library routine that is not part of the repository.  The spec has the
    slope computation fail when "an inverse does not exist modulo p";
    accordingly [inverse u v] is the inverse of [u] in [[0, v)] when
    [gcd u v = 1] and raises otherwise ([ValueError] is the library's
    exception, the spec's DomainError).  A modulus below 1 is refused. *)
Definition inverse (u v : Z) : outcome Z :=
  if v =? 0 then Raise ZeroDivisionError
  else if v <? 0 then Raise ValueError
  else if Z.gcd u v =? 1 then Ok (Z.invmod u v)
  else Raise ValueError.

(** [add(P, Q, E)]. *)
Definition add (P Q : point) (E : curve) : outcome point :=
  if point_eqb P (0, 0) then Ok Q
  else if point_eqb Q (0, 0) then Ok P
  else
    let Ea := Ea E in
    let Ep := Ep E in
    let '(x1, y1) := P in
    let '(x2, y2) := Q in
    if (x1 =? x2) && (y1 =? - y2) then Ok (0, 0)
    else
      l <- (if negb (point_eqb P Q)
            then i <- inverse (x2 - x1) Ep ;; Ok ((y2 - y1) * i)
            else i <- inverse (2 * y1) Ep ;; Ok ((3 * (x1 ^ 2) + Ea) * i)) ;;
      let x3 := ((l ^ 2) - x1 - x2) mod Ep in
      let y3 := (l * (x1 - x3) - y1) mod Ep in
      Ok (x3, y3).

(** Number of binary digits of a positive integer (Python's
    [int.bit_length]); the loop of [multiply] halves [n], so this is the
    number of iterations left. *)
Definition bit_length (n : Z) : nat :=
  match n with
  | Zpos p => Pos.size_nat p
  | _ => O
  end.

(** The [while (n > 0)] loop of [multiply], on the state [(Q, R, n)]. *)
Equations? multiply_loop (E : curve) (Q R : point) (n : Z) : outcome point
  by wf (bit_length n) lt :=
  multiply_loop E Q R n with Z_gt_dec n 0 => {
    | right _ => Ok R
    | left _ with (if n mod 2 =? 1 then add R Q E else Ok R) => {
        | Raise e => Raise e
        | Ok R' with add Q Q E => {
            | Raise e => Raise e
            | Ok Q' => multiply_loop E Q' R' (n / 2) } } }.
Proof.
  destruct n as [|m|m]; try lia.
  change 2 with (2 ^ 1). rewrite <- Z.shiftr_div_pow2 by lia.
  destruct m; simpl; lia.
Qed.

(** [multiply(P, n, E)]. *)
Definition multiply (P : point) (n : Z) (E : curve) : outcome point :=
  multiply_loop E P (0, 0) n.

(** What [server_oracle] can observe of its argument [C]: whether it can
    be iterated and, for each item, whether [int(i)] yields an integer
    or raises. *)
Inductive item : Type :=
| IntLike (z : Z)
| NotIntLike.

Inductive arg : Type :=
| NotIterable
| Iterable (items : list item).

Definition to_int (i : item) : outcome Z :=
  match i with
  | IntLike z => Ok z
  | NotIntLike => Raise ValueError
  end.

(** [x, y = [int(i) for i in C]]. *)
Definition unpack2 (C : arg) : outcome point :=
  match C with
  | NotIterable => Raise TypeError
  | Iterable items =>
      l <- comprehension to_int items ;;
      match l with
      | [x; y] => Ok (x, y)
      | _ => Raise ValueError
      end
  end.

Section Oracle.
(** The module globals [E] and [secret]. *)
Variable E : curve.
Variable secret : Z.

(** [server_oracle(C)]; [None] is Python's [None]. *)
Definition server_oracle (C : arg) : outcome (option point) :=
  try_except
    (xy <- unpack2 C ;;
     S <- multiply xy secret E ;;
     Ok (Some S))
    (Ok None).
End Oracle.

(** The globals of server_test_small_p.py.  [secret] is
    [random.getrandbits(87)] after [random.seed('i_love_crypto')]: the
    generator is deterministic under a fixed string seed, and this is the
    integer it yields. *)
Module SmallP.
Definition a : Z := 35464063352748132137167577.
Definition b : Z := 73813813485549545642019671.
Definition p : Z := 183864092725132365247326101.
Definition secret : Z := 51985886632013103124107672.
Definition E : curve := mkCurve a b p.
End SmallP.

(** The globals of server_test_big_p.py; [secret] is
    [random.getrandbits(255)] under the same seed. *)
Module BigP.
Definition a : Z :=
  0xffffffff00000001000000000000000000000000fffffffffffffffffffffffc.
Definition b : Z :=
  0x5ac635d8aa3a93e7b3ebbd55769886bc651d06b0cc53b0f63bce3c3e27d2604b.
Definition p : Z :=
  0xffffffff00000001000000000000000000000000ffffffffffffffffffffffff.
Definition secret : Z :=
  9606949374378083589209851183909649624022474731662205914631165246884755460504.
Definition E : curve := mkCurve a b p.
End BigP.

End Server.
Import Server.

(* ===================================================================== *)
(** ** shared/run_timeouts.py *)
(* ===================================================================== *)

Module Timeouts.

(** What a call [func] with its arguments does while an alarm is armed: it
    returns a value ([None] is Python's [None]), the alarm fires first
    ([TimeoutException] out of the signal handler), or it raises some
    other exception. *)
Inductive attempt (A : Type) : Type :=
| Returns (v : option A)
| TimesOut
| Raises (e : exn).
Arguments Returns {A} v.
Arguments TimesOut {A}.
Arguments Raises {A} e.

Section Wrapped.
Context {A : Type}.
(** Truth value of a value other than [None]. *)
Variable truthy : A -> bool.
(** The wrapped call as a function of the alarm it runs under.  One run
    of [loop_func_with_timeout] arms every alarm value at most once, so
    this covers calls whose behaviour changes from attempt to attempt. *)
Variable func : Z -> attempt A.

(** [if result:] *)
Definition is_true (result : option A) : bool :=
  match result with
  | None => false
  | Some v => truthy v
  end.

(** [run_func_with_timeout(func, ..., timeout=timeout)]. *)
Definition run_func_with_timeout (timeout : Z) : outcome (option A) :=
  if timeout >? 0 then
    match func timeout with
    | Returns v => Ok v
    | TimesOut => Ok None
    | Raises e => Raise e
    end
  else Raise AssertionError.

(** The [while start_timeout < max_timeout] loop.  Besides the outcome
    it yields the alarms armed, in order. *)
Equations? retry_loop (start_timeout max_timeout : Z) (result : option A)
  : list Z * outcome (option A)
  by wf (Z.to_nat (max_timeout - start_timeout)) lt :=
  retry_loop start_timeout max_timeout result
    with Z_lt_dec start_timeout max_timeout => {
    | right _ => ([], Ok result)
    | left _ with run_func_with_timeout start_timeout => {
        | Raise e => ([start_timeout], Raise e)
        | Ok result' with is_true result' => {
            | true => ([start_timeout], Ok result')
            | false =>
                let rest := retry_loop (start_timeout + 1) max_timeout result' in
                (start_timeout :: fst rest, snd rest) } } }.
Proof. lia. Qed.

(** [loop_func_with_timeout(func, ..., timeout=timeout, **kwargs)].
    [kw_max_timeout] is the entry ['max_timeout'] of [kwargs]: absent
    ([None]), or present with the value [None] or an integer. *)
Definition loop_func_with_timeout (timeout : Z)
    (kw_max_timeout : option (option Z)) : list Z * outcome (option A) :=
  let start_timeout := timeout in
  let max_timeout :=
    match kw_max_timeout with
    | None => Some (start_timeout + 5)
    | Some v => v
    end in
  match max_timeout with
  | None => ([], Raise TypeError)
  | Some max_timeout =>
      if negb (max_timeout >? start_timeout) then ([], Raise AssertionError)
      else if negb (timeout >? 0) then ([], Raise AssertionError)
      else retry_loop start_timeout max_timeout None
  end.

End Wrapped.

End Timeouts.
Import Timeouts.

(* ===================================================================== *)
(** ** shared/factor_help.py *)
(* ===================================================================== *)

Module Factor.

(** [list.remove(x)]: drops the first occurrence. *)
Fixpoint remove_first (x : Z) (l : list Z) : list Z :=
  match l with
  | [] => []
  | y :: l' => if x =? y then l' else y :: remove_first x l'
  end.

(** [Counter(fac_list)] as its items, in order of first occurrence. *)
Fixpoint count_up (k : Z) (c : list (Z * Z)) : list (Z * Z) :=
  match c with
  | [] => [(k, 1)]
  | (k', v) :: c' => if k =? k' then (k', v + 1) :: c' else (k', v) :: count_up k c'
  end.

Definition Counter (fac_list : list Z) : list (Z * Z) :=
  fold_left (fun c k => count_up k c) fac_list [].

Fixpoint insert_sorted (x : Z) (l : list Z) : list Z :=
  match l with
  | [] => [x]
  | y :: l' => if x <=? y then x :: l else y :: insert_sorted x l'
  end.

Definition sorted (l : list Z) : list Z := fold_right insert_sorted [] l.

(** [fact_dict(fac_list)]. *)
Definition fact_dict (fac_list : list Z) : list Z :=
  sorted (map (fun kv => fst kv ^ snd kv) (Counter fac_list)).

Section Collaborators.
(** [factor_factordb(N)]: the list FactorDB answers with (the empty list when
    the connection fails). *)
Variable factor_factordb : Z -> list Z.
(** Sage's [is_prime]. *)
Variable is_prime : Z -> bool.
(** [ecm.factor(X)] under an alarm of the given number of seconds. *)
Variable ecm_factor : Z -> Z -> attempt (list Z).

(** Truth value of a list. *)
Definition nonempty (l : list Z) : bool :=
  match l with
  | [] => false
  | _ :: _ => true
  end.

(** The loop [for X in factors:] of [factor_integer].  Python walks the
    list by position while the body removes from it and appends to it,
    so the state is the list and the position [i] of the next item.
    What ECM returns is not bounded here, hence the iteration budget
    [fuel]; [None] means it ran out. *)
Fixpoint for_X_in_factors (fuel : nat) (i : nat) (factors : list Z)
    (timeout : Z) (max_timeout : option Z) : option (outcome (list Z)) :=
  match nth_error factors i with
  | None => Some (Ok factors)
  | Some X =>
      match fuel with
      | O => None
      | S fuel' =>
          if negb (is_prime X) then
            match snd (loop_func_with_timeout nonempty (ecm_factor X)
                         timeout (Some max_timeout)) with
            | Raise e => Some (Raise e)
            | Ok additional_factors =>
                if negb (is_true nonempty additional_factors) then
                  for_X_in_factors fuel' (S i) factors timeout max_timeout
                else
                  let factors := remove_first X factors in
                  let factors :=
                    factors ++ match additional_factors with
                               | Some l => l
                               | None => []
                               end in
                  for_X_in_factors fuel' (S i) factors timeout max_timeout
            end
          else for_X_in_factors fuel' (S i) factors timeout max_timeout
      end
  end.

(** [factor_integer(N, timeout, max_timeout)]; [max_timeout] is [None]
    when the caller leaves it out. *)
Definition factor_integer (fuel : nat) (N : Z) (timeout : Z)
    (max_timeout : option Z) : option (outcome (list Z)) :=
  let factors := factor_factordb N in
  if forallb is_prime factors then Some (Ok factors)
  else for_X_in_factors fuel 0 factors timeout max_timeout.

(** [get_factors(N, timeout, max_timeout, factor_dict)]: the list, and
    with [factor_dict] also its prime powers. *)
Definition get_factors (fuel : nat) (N : Z) (timeout : Z)
    (max_timeout : option Z) (factor_dict : bool)
  : option (outcome (list Z * option (list Z))) :=
  match factor_integer fuel N timeout max_timeout with
  | None => None
  | Some (Raise e) => Some (Raise e)
  | Some (Ok result) =>
      if factor_dict then Some (Ok (result, Some (fact_dict result)))
      else Some (Ok (result, None))
  end.

End Collaborators.

(** [safe_factorization(func, value, timeout, max_timeout)]: [func value]
    is the wrapped call as a function of the alarm; [max_timeout] is
    [None] when the caller leaves it out, and is handed on as a keyword
    either way. *)
Definition safe_factorization {A : Type} (truthy : A -> bool)
    (func : Z -> Z -> attempt A) (value timeout : Z) (max_timeout : option Z)
  : list Z * outcome (option A) :=
  loop_func_with_timeout truthy (func value) timeout (Some max_timeout).

(** The FactorDB helpers talk to a remote service whose answers may
    change from one request to the next, so they thread the log of the
    requests made so far, most recent first. *)
Module Service.

Inductive request : Type :=
| Submit (N : Z)
| Query (N : Z).

(** What [call_factordb] can raise: [IndexError] from [res[-1]], or
    whatever the page request raised. *)
Inductive failure : Type :=
| IndexError
| RequestError (e : exn).

Section World.
(** [requests.get(php_site)] for the number [N] after the given
    requests: it raises, or yields the [ok] flag of the response. *)
Variable requests_get : list request -> Z -> outcome bool.
(** The factor list the FactorDB client yields for [N] after the given
    requests. *)
Variable get_factor_list : list request -> Z -> outcome (list Z).

(** [submit_manual(N)]. *)
Definition submit_manual (N : Z) (log : list request)
  : outcome bool * list request :=
  (requests_get log N, Submit N :: log).

(** [factor_factordb(N)]: any exception of the client is caught and
    gives the empty list. *)
Definition factor_factordb (N : Z) (log : list request)
  : list Z * list request :=
  (match get_factor_list log N with
   | Ok l => l
   | Raise _ => []
   end, Query N :: log).

(** The loop [for _ in range(iter_count)] of [iter_factordb]. *)
Fixpoint iter_rounds (rounds : nat) (N : Z) (log : list request)
  : outcome unit * list request :=
  match rounds with
  | O => (Ok tt, log)
  | S rounds' =>
      match submit_manual N log with
      | (Raise e, log1) => (Raise e, log1)
      | (Ok _, log1) =>
          let '(_, log2) := factor_factordb N log1 in
          iter_rounds rounds' N log2
      end
  end.

(** [iter_factordb(N, iter_count)]. *)
Definition iter_factordb (N iter_count : Z) (log : list request)
  : outcome (list Z) * list request :=
  match iter_rounds (Z.to_nat iter_count) N log with
  | (Raise e, log1) => (Raise e, log1)
  | (Ok _, log1) =>
      let '(res, log2) := factor_factordb N log1 in (Ok res, log2)
  end.

(** [res_check != res[-1]]: a list compared with an integer; Python
    finds values of the two types unequal whatever they hold. *)
Definition list_ne_int (res_check : list Z) (last_factor : Z) : bool := true.

(** [call_factordb(N, iter_count)]. *)
Definition call_factordb (N iter_count : Z) (log : list request)
  : (list Z + failure) * list request :=
  match iter_factordb N iter_count log with
  | (Raise e, log1) => (inr (RequestError e), log1)
  | (Ok res, log1) =>
      match rev res with
      | [] => (inr IndexError, log1)
      | last_factor :: _ =>
          match iter_factordb last_factor iter_count log1 with
          | (Raise e, log2) => (inr (RequestError e), log2)
          | (Ok res_check, log2) =>
              if list_ne_int res_check last_factor then
                match iter_factordb N 3 log2 with
                | (Raise e, log3) => (inr (RequestError e), log3)
                | (Ok res', log3) => (inl res', log3)
                end
              else (inl res, log2)
          end
      end
  end.

End World.

End Service.

End Factor.
Import Factor.

(* ===================================================================== *)
(** ** The orchestrator's CRT combination (spec section 4.3) *)
(* ===================================================================== *)

Module Crt.

(** Modelled from the spec: the orchestrator ([run_attack] of
    invalid_curve_attack.py) is imported by the tests but is not among
    the sources.  A ResidueRecord is "{modulus: target_order, residue:
    recovered discrete log value in [0, modulus)}". *)
Record ResidueRecord : Type := mkRecord { modulus : Z; residue : Z }.

(** Modelled from the spec: "reduce to the coprime part" of the missing
    orchestrator; what is left of [q] once every factor it shares with
    [m] is divided out. *)
Equations? coprime_part (q m : Z) : Z by wf (Z.to_nat q) lt :=
  coprime_part q m with Z_le_gt_dec q 0 => {
    | left _ => q
    | right _ with Z_le_gt_dec (Z.gcd q m) 1 => {
        | left _ => q
        | right _ => coprime_part (q / Z.gcd q m) m } }.
Proof.
  assert (q / Z.gcd q m < q) by (apply Z.div_lt; lia).
  assert (0 <= q / Z.gcd q m) by (apply Z.div_pos; lia).
  lia.
Qed.

(** Modelled from the spec: one pairwise combination of the missing
    orchestrator, for a running [(modulus_acc, residue_acc)] and a record
    [(q, r)] with [q] coprime to [modulus_acc]: the residue modulo
    [modulus_acc * q] that agrees with both. *)
Definition combine_coprime (modulus_acc residue_acc q r : Z) : Z * Z :=
  let t := ((r - residue_acc) * Z.invmod modulus_acc q) mod q in
  (modulus_acc * q, residue_acc + modulus_acc * t).

(** Modelled from the spec: a step of the missing orchestrator's
    "iterative pairwise reconciliation: maintain a running (modulus_acc,
    residue_acc); for each new record, if gcd(modulus_acc, q) != 1 the
    two subgroups overlap in a shared prime and must agree on the
    overlapping residue (else the data is inconsistent - fatal) - reduce
    to the coprime part before combining".  [None] is the fatal
    consistency failure. *)
Definition reconcile (acc : Z * Z) (record : ResidueRecord) : option (Z * Z) :=
  let '(modulus_acc, residue_acc) := acc in
  let q := modulus record in
  let g := Z.gcd modulus_acc q in
  if g =? 1 then
    Some (combine_coprime modulus_acc residue_acc q (residue record))
  else if residue_acc mod g =? residue record mod g then
    let q' := coprime_part q modulus_acc in
    Some (combine_coprime modulus_acc residue_acc q' (residue record mod q'))
  else None.

(** Modelled from the spec: "combine all ResidueRecords via CRT" in the
    missing orchestrator, folding [reconcile] over the records. *)
Fixpoint crt_fold (acc : Z * Z) (records : list ResidueRecord)
  : option (Z * Z) :=
  match records with
  | [] => Some acc
  | record :: rest =>
      match reconcile acc record with
      | Some acc' => crt_fold acc' rest
      | None => None
      end
  end.

(** Modelled from the spec: the CRT combination of the missing
    orchestrator, started from the empty product: modulus 1, residue 0. *)
Definition crt_combine (records : list ResidueRecord) : option (Z * Z) :=
  crt_fold (1, 0) records.

(** The ResidueRecords of a secret [s] for the moduli [qs]. *)
Definition records_of (s : Z) (qs : list Z) : list ResidueRecord :=
  map (fun q => mkRecord q (s mod q)) qs.

(** Product of the moduli. *)
Definition product (qs : list Z) : Z := fold_right Z.mul 1 qs.

(** Pairwise coprime moduli. *)
Fixpoint pairwise_coprime (qs : list Z) : Prop :=
  match qs with
  | [] => True
  | q :: rest => Forall (fun q' => Z.gcd q q' = 1) rest /\ pairwise_coprime rest
  end.

End Crt.
Import Crt.

(* ===================================================================== *)
(** ** Properties of the group law of the test servers *)
(* ===================================================================== *)

(** Coordinates reduced into [[0, p)]. *)
Definition reduced (p : Z) (P : point) : Prop :=
  0 <= fst P < p /\ 0 <= snd P < p.

(** An attempt that fails: the alarm fired, or the call returned a
    falsy value. *)
Definition failed {A : Type} (truthy : A -> bool) (a : attempt A) : bool :=
  match a with
  | TimesOut => true
  | Returns v => negb (is_true truthy v)
  | Raises _ => false
  end.

(** The alarms [timeout, timeout + 1, ...], [k] of them. *)
Definition deadlines (timeout : Z) (k : nat) : list Z :=
  map (fun i => timeout + Z.of_nat i) (seq 0 k).

(** Primality by trial division, standing in for Sage's [is_prime] where
    a concrete collaborator is needed. *)
Definition trial_division (n : Z) : bool :=
  (1 <? n) &&
  forallb (fun d => negb (n mod Z.of_nat d =? 0)) (seq 2 (Z.to_nat n - 2)).

(** A complete prime factorisation of [N]: every element prime, product
    [N]. *)
Definition complete_factorization (is_prime : Z -> bool) (N : Z)
    (l : list Z) : Prop :=
  forallb is_prime l = true /\ product l = N.

(** [P] satisfies [y^2 = x^3 + a*x + b] modulo [p]. *)
Definition on_curve (a b p : Z) (P : point) : Prop :=
  (snd P ^ 2) mod p = (fst P ^ 3 + a * fst P + b) mod p.

(** How often [k] occurs in [l]. *)
Fixpoint multiplicity (k : Z) (l : list Z) : Z :=
  match l with
  | [] => 0
  | x :: l' => (if k =? x then 1 else 0) + multiplicity k l'
  end.

(** The count a [Counter] holds for [k] (0 when [k] is not a key). *)
Fixpoint counted (c : list (Z * Z)) (k : Z) : Z :=
  match c with
  | [] => 0
  | (k', v) :: c' => if k =? k' then v else counted c' k
  end.

(** The requests [rounds] passes of the loop of [iter_factordb] add to
    the log, most recent first. *)
Fixpoint rounds_log (rounds : nat) (N : Z) : list Service.request :=
  match rounds with
  | O => []
  | S rounds' => Service.Query N :: Service.Submit N :: rounds_log rounds' N
  end.

(** The requests of one [iter_factordb(N, iter_count)], most recent
    first. *)
Definition iter_log (iter_count N : Z) : list Service.request :=
  Service.Query N :: rounds_log (Z.to_nat iter_count) N.

Lemma point_eqb_eq (P Q : point) : point_eqb P Q = true <-> P = Q.
Proof.
  destruct P as [x1 y1], Q as [x2 y2]. unfold point_eqb. simpl.
  rewrite andb_true_iff, !Z.eqb_eq. split.
  - intros [-> ->]. reflexivity.
  - intros H. inversion H. auto.
Qed.

Lemma point_eqb_neq (P Q : point) : point_eqb P Q = false <-> P <> Q.
Proof.
  rewrite <- point_eqb_eq. destruct (point_eqb P Q); split; congruence.
Qed.

Lemma point_eqb_refl (P : point) : point_eqb P P = true.
Proof. apply point_eqb_eq. reflexivity. Qed.

(** The loop of [multiply], one iteration unfolded. *)
Lemma multiply_loop_unfold (E : curve) (Q R : point) (n : Z) :
  multiply_loop E Q R n =
  if n >? 0 then
    R' <- (if n mod 2 =? 1 then add R Q E else Ok R) ;;
    Q' <- add Q Q E ;;
    multiply_loop E Q' R' (n / 2)
  else Ok R.
Proof.
  funelim (multiply_loop E Q R n);
    destruct (Z.gtb_spec n 0); try lia; try reflexivity;
    repeat match goal with
      | H : ?lhs = Ok _ |- context [?lhs] => rewrite H; simpl
      | H : ?lhs = Raise _ |- context [?lhs] => rewrite H; simpl
      end; reflexivity.
Qed.

(** Induction along the halving of [n] that the loop performs. *)
Lemma halving_ind (P : Z -> Prop) :
  (forall n, (n > 0 -> P (n / 2)) -> P n) -> forall n, P n.
Proof.
  intros step n. destruct (Z_le_gt_dec n 0) as [Hle|Hgt].
  - apply step. lia.
  - assert (Hn : 0 <= n) by lia. revert Hn.
    pattern n. apply Z_lt_induction; [|lia].
    intros x IH _. apply step. intros Hx. 
    destruct (Z.eq_dec (x / 2) 0) as [E0|NE].
    + rewrite E0. apply step. lia.
    + assert (x / 2 < x) by (apply Z.div_lt; lia).
      assert (0 <= x / 2) by (apply Z.div_pos; lia).
      apply IH; lia.
Qed.

Lemma inverse_coprime (u v : Z) :
  0 < v -> Z.gcd u v = 1 -> inverse u v = Ok (Z.invmod u v).
Proof.
  intros Hv Hg. unfold inverse.
  destruct (Z.eqb_spec v 0); [lia|].
  destruct (Z.ltb_spec v 0); [lia|].
  rewrite Hg. reflexivity.
Qed.

Lemma inverse_not_coprime (u v : Z) :
  0 < v -> Z.gcd u v <> 1 -> inverse u v = Raise ValueError.
Proof.
  intros Hv Hg. unfold inverse.
  destruct (Z.eqb_spec v 0); [lia|].
  destruct (Z.ltb_spec v 0); [lia|].
  destruct (Z.eqb_spec (Z.gcd u v) 1); [contradiction|reflexivity].
Qed.

Lemma inverse_multiple (k v : Z) :
  1 < v -> inverse (k * v) v = Raise ValueError.
Proof.
  intros Hv. apply inverse_not_coprime; [lia|].
  rewrite Z.gcd_comm, (Z.mul_comm k v), Z.gcd_mul_diag_l by lia. lia.
Qed.

Lemma inverse_prime (u p : Z) :
  Z.prime p -> ~ (p | u) -> inverse u p = Ok (Z.invmod u p).
Proof.
  intros Hp Hu. apply inverse_coprime.
  - pose proof (Z.prime_ge_2 p Hp). lia.
  - rewrite Z.gcd_comm. apply Z.coprime_prime_l; assumption.
Qed.

Lemma not_divide_small (p d : Z) :
  0 < Z.abs d < p -> ~ (p | d).
Proof.
  intros Hd Hdiv. apply Z.absle_divide in Hdiv; lia.
Qed.

(** Whatever [add] returns from reduced points is reduced. *)
Lemma add_reduced (E : curve) (P Q S : point) :
  0 < Ep E -> reduced (Ep E) P -> reduced (Ep E) Q ->
  add P Q E = Ok S -> reduced (Ep E) S.
Proof.
  intros Hp HP HQ. unfold add.
  destruct (point_eqb P (0, 0)); [intros [= <-]; assumption|].
  destruct (point_eqb Q (0, 0)); [intros [= <-]; assumption|].
  destruct P as [x1 y1], Q as [x2 y2].
  destruct ((x1 =? x2) && (y1 =? - y2)).
  - intros [= <-]. unfold reduced; simpl; lia.
  - destruct (negb (point_eqb (x1, y1) (x2, y2))); simpl;
      match goal with |- context [inverse ?u ?v] => destruct (inverse u v) end;
      simpl; intros [= <-]; unfold reduced; simpl;
      split; apply Z.mod_pos_bound; assumption.
Qed.

(** Doubling returns a reduced point whatever it is given. *)
Lemma double_reduced (E : curve) (Q S : point) :
  0 < Ep E -> add Q Q E = Ok S -> reduced (Ep E) S.
Proof.
  intros Hp. unfold add.
  destruct (point_eqb Q (0, 0)) eqn:HQ.
  - apply point_eqb_eq in HQ. subst Q. intros [= <-]. unfold reduced; simpl; lia.
  - destruct Q as [x1 y1].
    destruct ((x1 =? x1) && (y1 =? - y1)).
    + intros [= <-]. unfold reduced; simpl; lia.
    + destruct (negb (point_eqb (x1, y1) (x1, y1))); simpl;
        match goal with |- context [inverse ?u ?v] => destruct (inverse u v) end;
        simpl; intros [= <-]; unfold reduced; simpl;
        split; apply Z.mod_pos_bound; assumption.
Qed.

Lemma multiply_loop_reduced (E : curve) :
  0 < Ep E ->
  forall n Q R S, reduced (Ep E) Q -> reduced (Ep E) R ->
  multiply_loop E Q R n = Ok S -> reduced (Ep E) S.
Proof.
  intros Hp n. pattern n. apply halving_ind. clear n.
  intros n IH Q R S HQ HR. rewrite multiply_loop_unfold.
  destruct (Z.gtb_spec n 0) as [Hn|Hn]; [|intros [= <-]; assumption].
  destruct (if n mod 2 =? 1 then add R Q E else Ok R) as [R'|e] eqn:HR';
    simpl; [|discriminate].
  destruct (add Q Q E) as [Q'|e] eqn:HQ'; simpl; [|discriminate].
  apply IH; [lia| |].
  - eapply double_reduced; eassumption.
  - destruct (n mod 2 =? 1).
    + apply (add_reduced E R Q); assumption.
    + injection HR' as <-. assumption.
Qed.

(** With an even scalar the first iteration doubles without adding, so
    the point submitted never reaches the result unreduced. *)
Lemma multiply_even_reduced (E : curve) (P S : point) (n : Z) :
  0 < Ep E -> Z.even n = true ->
  multiply P n E = Ok S -> reduced (Ep E) S.
Proof.
  intros Hp Hn. unfold multiply. rewrite multiply_loop_unfold.
  destruct (Z.gtb_spec n 0) as [Hpos|Hle].
  - assert (Hmod : n mod 2 = 0).
    { rewrite Zmod_even, Hn. reflexivity. }
    rewrite Hmod. simpl.
    destruct (add P P E) as [Q'|e] eqn:HQ'; simpl; [|discriminate].
    apply multiply_loop_reduced; [assumption| |].
    + eapply double_reduced; eassumption.
    + unfold reduced; simpl; lia.
  - intros [= <-]. unfold reduced; simpl; lia.
Qed.

Lemma oracle_even_secret (E : curve) (secret : Z) (C : arg) :
  0 < Ep E -> Z.even secret = true ->
  server_oracle E secret C = Ok None \/
  exists S, server_oracle E secret C = Ok (Some S) /\ reduced (Ep E) S.
Proof.
  intros Hp Hs. unfold server_oracle.
  destruct (unpack2 C) as [xy|e]; simpl; [|left; reflexivity].
  destruct (multiply xy secret E) as [S|e] eqn:HS; simpl; [|left; reflexivity].
  right. exists S. split; [reflexivity|].
  eapply multiply_even_reduced; eassumption.
Qed.

Lemma multiply_loop_ignores_b (a b b' p : Z) :
  forall n Q R,
  multiply_loop (mkCurve a b p) Q R n = multiply_loop (mkCurve a b' p) Q R n.
Proof.
  intros n. pattern n. apply halving_ind. clear n.
  intros n IH Q R. rewrite (multiply_loop_unfold (mkCurve a b p)).
  rewrite (multiply_loop_unfold (mkCurve a b' p)).
  destruct (Z.gtb_spec n 0) as [Hn|Hn]; [|reflexivity].
  change (add R Q (mkCurve a b' p)) with (add R Q (mkCurve a b p)).
  change (add Q Q (mkCurve a b' p)) with (add Q Q (mkCurve a b p)).
  destruct (if n mod 2 =? 1 then add R Q (mkCurve a b p) else Ok R); simpl;
    [|reflexivity].
  destruct (add Q Q (mkCurve a b p)); simpl; [|reflexivity].
  apply IH. lia.
Qed.

Lemma prime_5 : Z.prime 5.
Proof.
  split; [lia|]. intros n Hn [k Hk].
  assert (Hcases : n = 2 \/ n = 3 \/ n = 4) by lia.
  destruct Hcases as [-> | [-> | ->]]; lia.
Qed.

(** Two distinct non-identity points with one [x] and reduced [y]s that
    are negatives of each other modulo [p]: [y1 == -y2] compares the
    integers, which are both positive, so the test for inverse points is
    not taken and the slope divides by [x2 - x1 = 0]. *)
Lemma add_negatives_raise (E : curve) (x y : Z) :
  1 < Ep E -> 0 < y < Ep E ->
  add (x, y) (x, Ep E - y) E = Raise ValueError.
Proof.
  intros Hp Hy. unfold add.
  assert (H1 : point_eqb (x, y) (0, 0) = false).
  { apply point_eqb_neq. intros [= ? ?]. lia. }
  assert (H2 : point_eqb (x, Ep E - y) (0, 0) = false).
  { apply point_eqb_neq. intros [= ? ?]. lia. }
  rewrite H1, H2.
  assert (H3 : (y =? - (Ep E - y)) = false) by (apply Z.eqb_neq; lia).
  rewrite H3, andb_false_r.
  destruct (point_eqb (x, y) (x, Ep E - y)) eqn:Heq; cbn [negb].
  - apply point_eqb_eq in Heq. injection Heq as Heq.
    replace (2 * y) with (1 * Ep E) by lia.
    rewrite inverse_multiple by assumption. reflexivity.
  - replace (x - x) with (0 * Ep E) by lia.
    rewrite inverse_multiple by assumption. reflexivity.
Qed.

(** Closed facts about the code are settled by running it. *)
Ltac by_running :=
  vm_compute;
  repeat match goal with |- _ /\ _ => split end;
  first [reflexivity | discriminate | congruence].

(** C8: the point at infinity [(0, 0)] is the identity of the group law:
    for every point [Q], [add((0,0), Q, E)] and [add(Q, (0,0), E)] return
    [Q], and for every point [P], [multiply(P, 0, E)] returns [(0, 0)]. *)
Theorem infinity_is_identity (E : curve) (P Q : point) :
  add (0, 0) Q E = Ok Q /\
  add Q (0, 0) E = Ok Q /\
  multiply P 0 E = Ok (0, 0).
Proof.
  split; [reflexivity|]. split.
  - unfold add. destruct (point_eqb Q (0, 0)) eqn:HQ.
    + apply point_eqb_eq in HQ. subst Q. reflexivity.
    + reflexivity.
  - unfold multiply. rewrite multiply_loop_unfold. reflexivity.
Qed.

(** C4: the group law does not depend on the coefficient [b]: two curve
    dictionaries with the same [p] and [a] give the same [add], the same
    [multiply] and the same oracle answer on every input, so no check of
    [y^2 = x^3 + a*x + b] takes part in the answer. *)
Theorem group_law_ignores_b (a b b' p : Z) (P Q : point) (n secret : Z)
    (C : arg) :
  add P Q (mkCurve a b p) = add P Q (mkCurve a b' p) /\
  multiply P n (mkCurve a b p) = multiply P n (mkCurve a b' p) /\
  server_oracle (mkCurve a b p) secret C =
  server_oracle (mkCurve a b' p) secret C.
Proof.
  split; [reflexivity|]. split.
  - apply multiply_loop_ignores_b.
  - unfold server_oracle, multiply.
    destruct (unpack2 C) as [xy|e]; simpl; [|reflexivity].
    rewrite (multiply_loop_ignores_b a b b' p). reflexivity.
Qed.

(** C1 (the code departs from it): [add] evaluated at inverse points with
    reduced coordinates, over the prime 5 and over the field of the small
    test server.  The points share [x], their [y]s sum to [p], and [add]
    raises from [inverse(0, p)] where the claim has it return [(0, 0)]. *)
Theorem add_of_inverse_points_raises :
  (Z.prime 5 /\ reduced 5 (1, 2) /\ reduced 5 (1, 3) /\ (2 + 3) mod 5 = 0 /\
   add (1, 2) (1, 3) (mkCurve 1 1 5) = Raise ValueError) /\
  (reduced SmallP.p (1, 2) /\ reduced SmallP.p (1, SmallP.p - 2) /\
   (2 + (SmallP.p - 2)) mod SmallP.p = 0 /\
   add (1, 2) (1, SmallP.p - 2) SmallP.E = Raise ValueError).
Proof.
  split.
  - split; [exact prime_5|].
    by_running.
  - by_running.
Qed.

(** C2, as stated, fails: over the prime 5 the reduced points [(1, 1)]
    and [(1, 2)], which are not inverses of each other, make [add] raise;
    over the prime 2 doubling [(1, 1)] raises. *)
Lemma add_raises_over_prime_modulus :
  (Z.prime 5 /\ reduced 5 (1, 1) /\ reduced 5 (1, 2) /\ (1 + 2) mod 5 <> 0 /\
   add (1, 1) (1, 2) (mkCurve 1 1 5) = Raise ValueError) /\
  (Z.prime 2 /\ reduced 2 (1, 1) /\
   add (1, 1) (1, 1) (mkCurve 1 1 2) = Raise ValueError).
Proof.
  split.
  - split; [exact prime_5|].
    by_running.
  - split; [exact Z.prime_2|].
    by_running.
Qed.

(** C2, amended: for a prime [p] and points with coordinates reduced into
    [[0, p)], [add(P, Q, E)] returns a reduced point whenever [P] or [Q]
    is [(0, 0)], or the [x]-coordinates differ, or [P = Q] and [p] is
    odd; and it raises, although [p] is prime, when two distinct points
    other than [(0, 0)] share [x] and their [y]s do not sum to 0 modulo
    [p] (the denominator [x2 - x1] is then 0). *)
Theorem add_defined_unless_shared_x (a b p : Z) (P Q : point) :
  Z.prime p -> reduced p P -> reduced p Q ->
  ((P = (0, 0) \/ Q = (0, 0) \/ fst P <> fst Q \/ (P = Q /\ p <> 2)) ->
   exists R, add P Q (mkCurve a b p) = Ok R /\ reduced p R) /\
  (P <> (0, 0) -> Q <> (0, 0) -> fst P = fst Q -> snd P <> snd Q ->
   (snd P + snd Q) mod p <> 0 ->
   add P Q (mkCurve a b p) = Raise ValueError).
Proof.
  intros Hp HP HQ.
  pose proof (Z.prime_ge_2 p Hp) as Hp2.
  assert (H00 : reduced p (0, 0)) by (unfold reduced; simpl; lia).
  destruct P as [x1 y1], Q as [x2 y2].
  destruct HP as [Hx1 Hy1], HQ as [Hx2 Hy2]. simpl in Hx1, Hy1, Hx2, Hy2.
  split.
  - intros Hcase. unfold add.
    destruct (point_eqb (x1, y1) (0, 0)) eqn:HP0.
    { exists (x2, y2). split; [reflexivity|]. split; assumption. }
    destruct (point_eqb (x2, y2) (0, 0)) eqn:HQ0.
    { exists (x1, y1). split; [reflexivity|]. split; assumption. }
    apply point_eqb_neq in HP0. apply point_eqb_neq in HQ0.
    destruct ((x1 =? x2) && (y1 =? - y2)) eqn:Hneg.
    { exists (0, 0). split; [reflexivity|assumption]. }
    assert (Hinv : exists l,
      (if negb (point_eqb (x1, y1) (x2, y2))
       then i <- inverse (x2 - x1) (Ep (mkCurve a b p)) ;; Ok ((y2 - y1) * i)
       else i <- inverse (2 * y1) (Ep (mkCurve a b p)) ;;
            Ok ((3 * x1 ^ 2 + Ea (mkCurve a b p)) * i)) = Ok l).
    { cbn [Ep Ea].
      destruct Hcase as [H|[H|[H|[H Hodd]]]]; try contradiction.
      - simpl in H.
        assert (Hne : point_eqb (x1, y1) (x2, y2) = false).
        { apply point_eqb_neq. intros [= ? ?]. contradiction. }
        rewrite Hne. cbn [negb].
        rewrite inverse_prime; [eexists; reflexivity|assumption|].
        apply not_divide_small. lia.
      - injection H as <- <-.
        rewrite point_eqb_refl. cbn [negb].
        rewrite Z.eqb_refl in Hneg. simpl in Hneg. apply Z.eqb_neq in Hneg.
        rewrite inverse_prime; [eexists; reflexivity|assumption|].
        intros Hdiv. apply Z.divide_prime_mul in Hdiv; [|assumption].
        destruct Hdiv as [Hdiv|Hdiv].
        + apply Z.absle_divide in Hdiv; lia.
        + revert Hdiv. apply not_divide_small. lia. }
    destruct Hinv as [l Hl]. rewrite Hl. cbn [bind].
    eexists. split; [reflexivity|].
    split; simpl; apply Z.mod_pos_bound; lia.
  - intros HP0 HQ0 Hx Hy Hsum. simpl in Hx, Hy, Hsum. subst x2.
    unfold add.
    apply point_eqb_neq in HP0. apply point_eqb_neq in HQ0.
    rewrite HP0, HQ0.
    assert (Hneg : (y1 =? - y2) = false).
    { apply Z.eqb_neq. intros ->. apply Hsum.
      replace (- y2 + y2) with 0 by lia. apply Z.mod_0_l. lia. }
    rewrite Hneg, andb_false_r.
    assert (Hne : point_eqb (x1, y1) (x1, y2) = false).
    { apply point_eqb_neq. intros [= ?]. contradiction. }
    rewrite Hne. cbn [negb Ep].
    replace (x1 - x1) with (0 * p) by lia.
    rewrite inverse_multiple by lia. reflexivity.
Qed.

(** The amended C2 at the prime 5: [(1, 1) + (2, 1)] is defined, and
    [(1, 1) + (1, 2)] raises. *)
Lemma add_defined_unless_shared_x_witness :
  (exists R, add (1, 1) (2, 1) (mkCurve 1 1 5) = Ok R /\ reduced 5 R) /\
  add (1, 1) (1, 2) (mkCurve 1 1 5) = Raise ValueError.
Proof.
  assert (H11 : reduced 5 (1, 1)) by (unfold reduced; simpl; lia).
  assert (H21 : reduced 5 (2, 1)) by (unfold reduced; simpl; lia).
  assert (H12 : reduced 5 (1, 2)) by (unfold reduced; simpl; lia).
  split.
  - apply (add_defined_unless_shared_x 1 1 5 (1, 1) (2, 1) prime_5 H11 H21).
    right. right. left. simpl. lia.
  - apply (add_defined_unless_shared_x 1 1 5 (1, 1) (1, 2) prime_5 H11 H12);
      simpl; try congruence. vm_compute. congruence.
Defined.

(** C3 (the code departs from it): the small and the big test server are
    each handed a pair of integers reduced into [[0, p)], and both answer
    [None].  The point has [2P = -P]; in [multiply] the running sum meets
    its own negative, [add] misses it as in C1 and raises, and the bare
    [except] turns that into [None]. *)
Theorem oracle_rejects_well_formed_point :
  (reduced SmallP.p (3, 67198708133835477105303301) /\
   server_oracle SmallP.E SmallP.secret
     (Iterable [IntLike 3; IntLike 67198708133835477105303301]) = Ok None) /\
  (reduced BigP.p (3, 4) /\
   server_oracle BigP.E BigP.secret (Iterable [IntLike 3; IntLike 4])
   = Ok None).
Proof.
  split; by_running.
Qed.

(** C6: for every argument [C], [server_oracle(C)] of either test server
    returns, without raising, [None] or a pair of integers reduced into
    [[0, p)].  (Both seeded secrets are even, so the submitted point is
    doubled before it is ever added.) *)
Theorem server_oracle_total (C : arg) :
  (server_oracle SmallP.E SmallP.secret C = Ok None \/
   exists S, server_oracle SmallP.E SmallP.secret C = Ok (Some S) /\
             reduced SmallP.p S) /\
  (server_oracle BigP.E BigP.secret C = Ok None \/
   exists S, server_oracle BigP.E BigP.secret C = Ok (Some S) /\
             reduced BigP.p S).
Proof.
  split.
  - apply (oracle_even_secret SmallP.E SmallP.secret C); reflexivity.
  - apply (oracle_even_secret BigP.E BigP.secret C); reflexivity.
Qed.

(* ===================================================================== *)
(** ** Properties of the timeout wrapper *)
(* ===================================================================== *)

Section RetryFacts.
Context {A : Type}.
Variable truthy : A -> bool.

(** The retry loop, one iteration unfolded. *)
Lemma retry_loop_unfold (func : Z -> attempt A) (start max_timeout : Z)
    (result : option A) :
  retry_loop truthy func start max_timeout result =
  if start <? max_timeout then
    match run_func_with_timeout func start with
    | Raise e => ([start], Raise e)
    | Ok result' =>
        if is_true truthy result' then ([start], Ok result')
        else
          let rest := retry_loop truthy func (start + 1) max_timeout result' in
          (start :: fst rest, snd rest)
    end
  else ([], Ok result).
Proof.
  funelim (retry_loop truthy func start max_timeout result);
    destruct (Z.ltb_spec start_timeout max_timeout); try lia; try reflexivity;
    repeat match goal with
      | H : ?lhs = Ok _ |- context [?lhs] => rewrite H; simpl
      | H : ?lhs = Raise _ |- context [?lhs] => rewrite H; simpl
      | H : ?lhs = true |- context [?lhs] => rewrite H; simpl
      | H : ?lhs = false |- context [?lhs] => rewrite H; simpl
      end; reflexivity.
Qed.

Lemma deadlines_S (start : Z) (k : nat) :
  deadlines start (S k) = start :: deadlines (start + 1) k.
Proof.
  unfold deadlines. simpl. rewrite Z.add_0_r. f_equal.
  rewrite <- seq_shift, map_map. apply map_ext. intros i. lia.
Qed.

(** What one attempt under a positive alarm hands to the loop. *)
Lemma run_failed (func : Z -> attempt A) (d : Z) :
  0 < d -> failed truthy (func d) = true ->
  exists r, run_func_with_timeout func d = Ok r /\ is_true truthy r = false /\
            (func d = TimesOut -> r = None) /\
            (forall v, func d = Returns v -> r = v).
Proof.
  intros Hd Hf. unfold run_func_with_timeout.
  destruct (Z.gtb_spec d 0); [|lia].
  destruct (func d) as [v| |e]; simpl in Hf.
  - exists v. apply negb_true_iff in Hf.
    repeat split; auto; try discriminate. intros v' [= ->]. reflexivity.
  - exists None. repeat split; auto; discriminate.
  - discriminate.
Qed.

Lemma run_not_failed (func : Z -> attempt A) (d : Z) :
  0 < d -> failed truthy (func d) = false ->
  (exists e, run_func_with_timeout func d = Raise e /\ func d = Raises e) \/
  (exists r, run_func_with_timeout func d = Ok r /\ is_true truthy r = true /\
             func d = Returns r).
Proof.
  intros Hd Hf. unfold run_func_with_timeout.
  destruct (Z.gtb_spec d 0); [|lia].
  destruct (func d) as [v| |e]; simpl in Hf.
  - right. exists v. apply negb_false_iff in Hf. auto.
  - discriminate.
  - left. exists e. auto.
Qed.

(** The shape of a run of the loop with [k] alarms left below the
    ceiling: it arms [start, start + 1, ...]; every attempt but the last
    one made has failed; it stops before the ceiling only on an attempt
    that did not fail; and a value returned before the ceiling is
    truthy. *)
Lemma retry_loop_shape (func : Z -> attempt A) (max_timeout : Z) :
  forall (k : nat) (start : Z) (result : option A),
  0 < start -> Z.to_nat (max_timeout - start) = k ->
  exists j : nat,
    (j <= k)%nat /\
    (k <> O -> j <> O) /\
    fst (retry_loop truthy func start max_timeout result) = deadlines start j /\
    (forall i : nat, (S i < j)%nat ->
       failed truthy (func (start + Z.of_nat i)) = true) /\
    ((j < k)%nat ->
       failed truthy (func (start + Z.of_nat (j - 1))) = false) /\
    (forall v, (j < k)%nat ->
       snd (retry_loop truthy func start max_timeout result) = Ok v ->
       is_true truthy v = true).
Proof.
  induction k as [|k IH]; intros start result Hs Hk;
    rewrite retry_loop_unfold.
  - destruct (Z.ltb_spec start max_timeout); [lia|].
    exists O. simpl. repeat split; try lia; try reflexivity.
  - destruct (Z.ltb_spec start max_timeout); [|lia].
    destruct (failed truthy (func start)) eqn:Hf.
    + destruct (run_failed func start Hs Hf) as (r & Hr & Hfalse & _).
      rewrite Hr, Hfalse. cbv zeta. cbn [fst snd].
      destruct (IH (start + 1) r) as (j & Hjk & Hj0 & Htr & Hprev & Hlast & Hval);
        [lia|lia|].
      exists (S j). rewrite deadlines_S, Htr.
      split; [lia|]. split; [lia|]. split; [reflexivity|].
      split; [|split].
      * intros i Hi. destruct i as [|i].
        -- rewrite Z.add_0_r. exact Hf.
        -- replace (start + Z.of_nat (S i)) with (start + 1 + Z.of_nat i) by lia.
           apply Hprev. lia.
      * intros Hlt. assert (Hj : (j < k)%nat) by lia.
        assert (j <> O) by (apply Hj0; lia).
        replace (start + Z.of_nat (S j - 1)) with (start + 1 + Z.of_nat (j - 1))
          by lia.
        apply Hlast. exact Hj.
      * intros v Hlt. apply Hval. lia.
    + exists 1%nat. rewrite deadlines_S. unfold deadlines at 1. simpl map.
      split; [lia|]. split; [lia|].
      destruct (run_not_failed func start Hs Hf)
        as [(e & Hr & _)|(r & Hr & Htrue & _)]; rewrite Hr; try rewrite Htrue;
        cbn [fst snd].
      * split; [reflexivity|]. split; [intros; lia|].
        split; [intros _; rewrite Z.add_0_r; exact Hf|].
        intros v _ Hv. discriminate.
      * split; [reflexivity|]. split; [intros; lia|].
        split; [intros _; rewrite Z.add_0_r; exact Hf|].
        intros v _ [= <-]. exact Htrue.
Qed.

(** When every attempt below the ceiling fails the loop arms every alarm
    and falls out of the [while] with the last attempt's falsy result. *)
Lemma retry_loop_all_failed (func : Z -> attempt A) (max_timeout : Z) :
  forall (k : nat) (start : Z) (result : option A),
  0 < start -> Z.to_nat (max_timeout - start) = k ->
  is_true truthy result = false ->
  (forall d, start <= d < max_timeout -> failed truthy (func d) = true) ->
  exists r,
    retry_loop truthy func start max_timeout result = (deadlines start k, Ok r) /\
    is_true truthy r = false /\
    ((forall d, start <= d < max_timeout -> func d = TimesOut) ->
     r = match k with O => result | S _ => None end) /\
    (forall v, k <> O -> func (max_timeout - 1) = Returns v -> r = v).
Proof.
  induction k as [|k IH]; intros start result Hs Hk Hres Hall;
    rewrite retry_loop_unfold.
  - destruct (Z.ltb_spec start max_timeout); [lia|].
    exists result. repeat split; auto. intros v Hv. contradiction.
  - destruct (Z.ltb_spec start max_timeout); [|lia].
    assert (Hf : failed truthy (func start) = true) by (apply Hall; lia).
    destruct (run_failed func start Hs Hf) as (r & Hr & Hfalse & Hto & Hret).
    rewrite Hr, Hfalse. cbv zeta.
    destruct (IH (start + 1) r) as (r' & Hloop & Hr' & Hnone & Hlast);
      [lia|lia|exact Hfalse|intros; apply Hall; lia|].
    rewrite Hloop. cbn [fst snd]. exists r'. rewrite deadlines_S.
    split; [reflexivity|]. split; [exact Hr'|]. split.
    + intros Hto'. rewrite Hnone by (intros; apply Hto'; lia).
      destruct k; [apply Hto, Hto'; lia|reflexivity].
    + intros v _ Hv. destruct k as [|k].
      * assert (start = max_timeout - 1) by lia. subst start.
        rewrite retry_loop_unfold in Hloop.
        destruct (Z.ltb_spec (max_timeout - 1 + 1) max_timeout); [lia|].
        injection Hloop as <-. apply Hret. exact Hv.
      * apply Hlast; [discriminate|exact Hv].
Qed.
Lemma run_func_ext (f g : Z -> attempt A) (d : Z) :
  f d = g d -> run_func_with_timeout f d = run_func_with_timeout g d.
Proof. intros H. unfold run_func_with_timeout. rewrite H. reflexivity. Qed.

(** Two wrapped calls that differ only in how their attempts before the
    last alarm fail (by timing out or by returning something falsy) give
    the same run of the loop. *)
Lemma retry_loop_indistinguishable (f g : Z -> attempt A) (max_timeout : Z) :
  forall (k : nat) (start : Z) (result result' : option A),
  0 < start -> Z.to_nat (max_timeout - start) = S k ->
  (forall d, start <= d < max_timeout - 1 ->
     f d = g d \/ (failed truthy (f d) = true /\ failed truthy (g d) = true)) ->
  f (max_timeout - 1) = g (max_timeout - 1) ->
  retry_loop truthy f start max_timeout result =
  retry_loop truthy g start max_timeout result'.
Proof.
  induction k as [|k IH]; intros start result result' Hs Hk Hmid Hlast;
    rewrite (retry_loop_unfold f), (retry_loop_unfold g);
    (destruct (Z.ltb_spec start max_timeout); [|lia]).
  - assert (start = max_timeout - 1) by lia. subst start.
    rewrite (run_func_ext f g) by exact Hlast.
    destruct (run_func_with_timeout g (max_timeout - 1)) as [r|e]; [|reflexivity].
    destruct (is_true truthy r); [reflexivity|]. cbv zeta.
    rewrite (retry_loop_unfold f), (retry_loop_unfold g).
    destruct (Z.ltb_spec (max_timeout - 1 + 1) max_timeout); [lia|]. reflexivity.
  - destruct (Hmid start) as [Heq|[Hf Hg]]; [lia| |].
    + rewrite (run_func_ext f g) by exact Heq.
      destruct (run_func_with_timeout g start) as [r|e]; [|reflexivity].
      destruct (is_true truthy r); [reflexivity|]. cbv zeta.
      rewrite (IH (start + 1) r r); [reflexivity|lia|lia| |exact Hlast].
      intros d Hd. apply Hmid. lia.
    + destruct (run_failed f start Hs Hf) as (r1 & Hr1 & Hfalse1 & _).
      destruct (run_failed g start Hs Hg) as (r2 & Hr2 & Hfalse2 & _).
      rewrite Hr1, Hr2, Hfalse1, Hfalse2. cbv zeta.
      rewrite (IH (start + 1) r1 r2); [reflexivity|lia|lia| |exact Hlast].
      intros d Hd. apply Hmid. lia.
Qed.

Lemma loop_func_with_timeout_unfold (func : Z -> attempt A)
    (timeout max_timeout : Z) :
  0 < timeout -> timeout < max_timeout ->
  loop_func_with_timeout truthy func timeout (Some (Some max_timeout)) =
  retry_loop truthy func timeout max_timeout None.
Proof.
  intros Ht Hm. unfold loop_func_with_timeout.
  destruct (Z.gtb_spec max_timeout timeout); [|lia].
  destruct (Z.gtb_spec timeout 0); [|lia]. reflexivity.
Qed.

Lemma length_deadlines (start : Z) (k : nat) : length (deadlines start k) = k.
Proof. unfold deadlines. rewrite length_map, length_seq. reflexivity. Qed.

Lemma in_deadlines (start d : Z) (k : nat) :
  In d (deadlines start k) <->
  exists i : nat, (i < k)%nat /\ d = start + Z.of_nat i.
Proof.
  unfold deadlines. rewrite in_map_iff. split.
  - intros (i & <- & Hi). apply in_seq in Hi. exists i. split; [lia|reflexivity].
  - intros (i & Hi & ->). exists i. split; [reflexivity|]. apply in_seq. lia.
Qed.

(** After an attempt that failed below the last alarm, the next alarm is
    armed. *)
Lemma retry_after_failure (func : Z -> attempt A) (timeout max_timeout d : Z) :
  0 < timeout -> timeout < max_timeout ->
  In d (fst (retry_loop truthy func timeout max_timeout None)) ->
  failed truthy (func d) = true -> d + 1 < max_timeout ->
  In (d + 1) (fst (retry_loop truthy func timeout max_timeout None)).
Proof.
  intros Ht Hm Hin Hf Hd.
  destruct (retry_loop_shape func max_timeout
              (Z.to_nat (max_timeout - timeout)) timeout None Ht eq_refl)
    as (j & Hjk & _ & Htr & _ & Hlast & _).
  rewrite Htr in *. apply in_deadlines in Hin. destruct Hin as (i & Hi & ->).
  apply in_deadlines. exists (S i). split; [|lia].
  destruct (Nat.eq_dec (S i) j) as [Hij|Hij]; [|lia].
  assert (Hlt : (j < Z.to_nat (max_timeout - timeout))%nat) by lia.
  specialize (Hlast Hlt). subst j.
  replace (S i - 1)%nat with i in Hlast by lia. congruence.
Qed.
End RetryFacts.

(** C10: the loop stops before its last attempt only on a truthy value.
    A value returned with alarms still left is truthy; an attempt that
    returns a falsy value below the last alarm is followed by the next
    alarm, as a timeout is; two wrapped calls that differ only in whether
    such attempts time out or return something falsy produce the same
    alarms and the same result; and on the last attempt a falsy value is
    what the loop returns, where a timeout gives [None]. *)
Theorem falsy_result_is_retried {A : Type} (truthy : A -> bool)
    (f g : Z -> attempt A) (timeout max_timeout : Z) :
  0 < timeout -> timeout < max_timeout ->
  let run h := loop_func_with_timeout truthy h timeout
                 (Some (Some max_timeout)) in
  (forall v, snd (run f) = Ok v ->
     (length (fst (run f)) < Z.to_nat (max_timeout - timeout))%nat ->
     is_true truthy v = true) /\
  (forall d v, In d (fst (run f)) -> f d = Returns v ->
     is_true truthy v = false -> d + 1 < max_timeout ->
     In (d + 1) (fst (run f))) /\
  ((forall d, timeout <= d < max_timeout - 1 ->
      f d = g d \/ (failed truthy (f d) = true /\ failed truthy (g d) = true)) ->
   f (max_timeout - 1) = g (max_timeout - 1) ->
   run f = run g) /\
  (forall v, (forall d, timeout <= d < max_timeout - 1 ->
                failed truthy (f d) = true) ->
     f (max_timeout - 1) = Returns v -> is_true truthy v = false ->
     snd (run f) = Ok v).
Proof.
  intros Ht Hm run. subst run. cbv beta.
  rewrite !loop_func_with_timeout_unfold by assumption.
  split; [|split; [|split]].
  - intros v Hv Hlen.
    destruct (retry_loop_shape truthy f max_timeout
                (Z.to_nat (max_timeout - timeout)) timeout None Ht eq_refl)
      as (j & _ & _ & Htr & _ & _ & Hval).
    rewrite Htr, length_deadlines in Hlen. apply Hval; assumption.
  - intros d v Hin Hret Hfalsy Hd.
    apply retry_after_failure; try assumption.
    rewrite Hret. simpl. rewrite Hfalsy. reflexivity.
  - intros Hmid Hlast.
    destruct (Z.to_nat (max_timeout - timeout)) as [|k] eqn:Hk; [lia|].
    apply (retry_loop_indistinguishable truthy f g max_timeout k); assumption.
  - intros v Hmid Hret Hfalsy.
    destruct (retry_loop_all_failed truthy f max_timeout
                (Z.to_nat (max_timeout - timeout)) timeout None Ht eq_refl
                eq_refl) as (r & Hrun & _ & _ & Hlast).
    { intros d Hd. destruct (Z.eq_dec d (max_timeout - 1)) as [->|Hne].
      - rewrite Hret. simpl. rewrite Hfalsy. reflexivity.
      - apply Hmid. lia. }
    rewrite Hrun. cbn [snd]. f_equal. apply Hlast; [lia|exact Hret].
Qed.

(** C10 at [timeout = 2], [max_timeout = 5]: a call that returns the
    empty list under alarms 2 and 3 and one that times out there are not
    told apart; the empty list returned under the last alarm, 4, is. *)
Lemma falsy_result_is_retried_witness :
  loop_func_with_timeout (fun l : list Z => nonempty l)
    (fun d => if d <? 4 then Returns (Some []) else Returns (Some [d]))
    2 (Some (Some 5)) =
  loop_func_with_timeout (fun l : list Z => nonempty l)
    (fun d => if d <? 4 then TimesOut else Returns (Some [d]))
    2 (Some (Some 5)) /\
  snd (loop_func_with_timeout (fun l : list Z => nonempty l)
         (fun _ => Returns (Some [])) 2 (Some (Some 5))) = Ok (Some []).
Proof.
  split.
  - apply (falsy_result_is_retried (fun l : list Z => nonempty l)
             (fun d => if d <? 4 then Returns (Some []) else Returns (Some [d]))
             (fun d => if d <? 4 then TimesOut else Returns (Some [d]))
             2 5); [lia | lia | | reflexivity].
    intros d Hd. right. destruct (Z.ltb_spec d 4); [|lia]. split; reflexivity.
  - apply (falsy_result_is_retried (fun l : list Z => nonempty l)
             (fun _ => Returns (Some [])) (fun _ => Returns (Some []))
             2 5); [lia | lia | | reflexivity | reflexivity].
    intros d Hd. reflexivity.
Defined.

(* ===================================================================== *)
(** ** Properties of the factorisation entry points *)
(* ===================================================================== *)

Section FactorFacts.
Variable factor_factordb : Z -> list Z.
Variable is_prime : Z -> bool.
Variable ecm_factor : Z -> Z -> attempt (list Z).

(** When ECM yields nothing for the composites in the list, the loop
    over the factors leaves the list as it found it. *)
Lemma for_X_in_factors_keeps (timeout max_timeout : Z) (factors : list Z) :
  0 < timeout -> timeout < max_timeout ->
  (forall X d, In X factors -> is_prime X = false ->
     timeout <= d < max_timeout ->
     failed nonempty (ecm_factor X d) = true) ->
  forall (fuel i : nat), (length factors - i <= fuel)%nat ->
  for_X_in_factors is_prime ecm_factor fuel i factors timeout
    (Some max_timeout) = Some (Ok factors).
Proof.
  intros Ht Hm Hecm. induction fuel as [|fuel IH]; intros i Hfuel.
  - simpl. destruct (nth_error factors i) eqn:Hnth; [|reflexivity].
    assert (i < length factors)%nat by (apply nth_error_Some; congruence). lia.
  - simpl. destruct (nth_error factors i) as [X|] eqn:Hnth; [|reflexivity].
    assert (HX : In X factors) by (eapply nth_error_In; eassumption).
    destruct (is_prime X) eqn:HpX; cbn [negb]; [apply IH; lia|].
    rewrite loop_func_with_timeout_unfold by assumption.
    destruct (retry_loop_all_failed nonempty (ecm_factor X) max_timeout
                (Z.to_nat (max_timeout - timeout)) timeout None Ht eq_refl
                eq_refl) as (r & Hrun & Hfalse & _).
    { intros d Hd. apply Hecm; assumption. }
    rewrite Hrun. cbn [snd]. rewrite Hfalse. cbn [negb]. apply IH. lia.
Qed.
End FactorFacts.

(** C5, as stated, fails: FactorDB answers [3; 35] for 105 and ECM times
    out on 35 under every alarm; [factor_integer] and [get_factors]
    return the list [3; 35], which is not a complete factorisation and
    carries no failure mark. *)
Lemma factor_integer_returns_composite :
  factor_integer (fun _ => [3; 35]) trial_division (fun _ _ => TimesOut)
    2 105 1 (Some 3) = Some (Ok [3; 35]) /\
  get_factors (fun _ => [3; 35]) trial_division (fun _ _ => TimesOut)
    2 105 1 (Some 3) false = Some (Ok ([3; 35], None)) /\
  trial_division 35 = false /\
  ~ complete_factorization trial_division 105 [3; 35].
Proof.
  split; [by_running|]. split; [by_running|]. split; [by_running|].
  intros [Hall _]. vm_compute in Hall. discriminate.
Qed.

(** C5, amended: [factor_integer] returns FactorDB's list as it is when
    every element of it is prime, and also when ECM yields nothing within
    the deadlines for its composite elements; those composites then stay
    in the list returned, and [get_factors] passes the same list on.  No
    unknown/failure signal is involved in either case. *)
Theorem factor_integer_keeps_unfactored (factor_factordb : Z -> list Z)
    (is_prime : Z -> bool) (ecm_factor : Z -> Z -> attempt (list Z))
    (fuel : nat) (N timeout max_timeout : Z) :
  (forallb is_prime (factor_factordb N) = true ->
   forall max_timeout',
   factor_integer factor_factordb is_prime ecm_factor fuel N timeout
     max_timeout' = Some (Ok (factor_factordb N))) /\
  (0 < timeout -> timeout < max_timeout ->
   (length (factor_factordb N) <= fuel)%nat ->
   (forall X d, In X (factor_factordb N) -> is_prime X = false ->
      timeout <= d < max_timeout ->
      failed nonempty (ecm_factor X d) = true) ->
   factor_integer factor_factordb is_prime ecm_factor fuel N timeout
     (Some max_timeout) = Some (Ok (factor_factordb N)) /\
   get_factors factor_factordb is_prime ecm_factor fuel N timeout
     (Some max_timeout) false = Some (Ok (factor_factordb N, None))).
Proof.
  split.
  - intros Hall m. unfold factor_integer. rewrite Hall. reflexivity.
  - intros Ht Hm Hfuel Hecm.
    assert (Hfi : factor_integer factor_factordb is_prime ecm_factor fuel N
                    timeout (Some max_timeout) = Some (Ok (factor_factordb N))).
    { unfold factor_integer.
      destruct (forallb is_prime (factor_factordb N)); [reflexivity|].
      apply for_X_in_factors_keeps; try assumption. lia. }
    split; [exact Hfi|]. unfold get_factors. rewrite Hfi. reflexivity.
Qed.

(** The amended C5 where FactorDB answers [3; 35] for 105 and ECM times
    out: the list comes back unchanged. *)
Lemma factor_integer_keeps_unfactored_witness :
  factor_integer (fun _ => [3; 35]) trial_division (fun _ _ => TimesOut)
    2 105 1 (Some 3) = Some (Ok [3; 35]) /\
  get_factors (fun _ => [3; 35]) trial_division (fun _ _ => TimesOut)
    2 105 1 (Some 3) false = Some (Ok ([3; 35], None)).
Proof.
  apply (factor_integer_keeps_unfactored (fun _ => [3; 35]) trial_division
           (fun _ _ => TimesOut) 2 105 1 3); [lia | lia | simpl; lia |].
  intros X d _ _ _. reflexivity.
Defined.

(* ===================================================================== *)
(** ** Properties of the CRT combination *)
(* ===================================================================== *)

Lemma combine_coprime_correct (s M q : Z) :
  0 < M -> 0 < q -> Z.gcd M q = 1 ->
  combine_coprime M (s mod M) q (s mod q) = (M * q, s mod (M * q)).
Proof.
  intros HM Hq Hg. unfold combine_coprime. f_equal.
  set (R := s mod M). set (r := s mod q).
  set (t := ((r - R) * Z.invmod M q) mod q).
  assert (HR : 0 <= R < M) by (apply Z.mod_pos_bound; lia).
  assert (Ht : 0 <= t < q) by (apply Z.mod_pos_bound; lia).
  assert (Hrange : 0 <= R + M * t < M * q) by nia.
  assert (HxM : (R + M * t) mod M = s mod M).
  { rewrite (Z.mul_comm M t), Z_mod_plus_full. unfold R. apply Z.mod_mod. lia. }
  assert (Hxq : (R + M * t) mod q = s mod q).
  { unfold t. rewrite <- Zplus_mod_idemp_r, Zmult_mod_idemp_r.
    replace (M * ((r - R) * Z.invmod M q)) with ((r - R) * (Z.invmod M q * M))
      by ring.
    rewrite <- Zmult_mod_idemp_r.
    rewrite (Z.invmod_coprime' M q Hg).
    rewrite Zmult_mod_idemp_r, Zplus_mod_idemp_r.
    replace (R + (r - R) * 1) with r by ring.
    unfold r. apply Z.mod_mod. lia. }
  rewrite <- (Z.mod_small (R + M * t) (M * q) Hrange).
  rewrite (Z.combinecong_complete_coprime_nonneg_nonneg (R + M * t) M q s s);
    try assumption; try lia.
  symmetry.
  apply Z.combinecong_complete_coprime_nonneg_nonneg;
    try assumption; try reflexivity; lia.
Qed.

Lemma crt_fold_round_trip (s : Z) (qs : list Z) :
  forall M, 0 < M ->
  Forall (fun q => 0 < q) qs ->
  Forall (fun q => Z.gcd M q = 1) qs ->
  pairwise_coprime qs ->
  crt_fold (M, s mod M) (records_of s qs) =
  Some (M * product qs, s mod (M * product qs)).
Proof.
  induction qs as [|q qs IH]; intros M HM Hpos Hco Hpair.
  - simpl. rewrite Z.mul_1_r. reflexivity.
  - inversion Hpos as [|? ? Hq Hpos']; subst.
    inversion Hco as [|? ? Hg Hco']; subst.
    destruct Hpair as [Hq_rest Hpair'].
    simpl. rewrite Hg. simpl.
    rewrite combine_coprime_correct by assumption.
    rewrite IH; try assumption.
    + rewrite Z.mul_assoc. reflexivity.
    + lia.
    + rewrite Forall_forall in *. intros q' Hin.
      apply Z.coprime_mul_l; [apply Hco'|apply Hq_rest]; assumption.
Qed.

(** C9: CRT round trip.  For pairwise coprime positive moduli [qs] and
    the residues [s mod q] of a secret [s], the combination of the
    ResidueRecords is [s mod (product of the moduli)], with that product
    as the modulus. *)
Theorem crt_round_trip (s : Z) (qs : list Z) :
  Forall (fun q => 0 < q) qs -> pairwise_coprime qs ->
  crt_combine (records_of s qs) = Some (product qs, s mod product qs).
Proof.
  intros Hpos Hpair. unfold crt_combine.
  replace 0 with (s mod 1) at 1 by apply Z.mod_1_r.
  rewrite crt_fold_round_trip; try assumption; try lia.
  - rewrite Z.mul_1_l. reflexivity.
  - rewrite Forall_forall. intros q _. apply Z.gcd_1_l.
Qed.

(** C9 at the secret 1000 and the moduli 7, 9, 16 and 25. *)
Lemma crt_round_trip_witness :
  crt_combine (records_of 1000 [7; 9; 16; 25]) = Some (25200, 1000).
Proof.
  apply (crt_round_trip 1000 [7; 9; 16; 25]).
  - repeat constructor.
  - simpl. repeat constructor.
Defined.

(* ===================================================================== *)
(** ** Further properties of the group law and of the oracle *)
(* ===================================================================== *)

Lemma cong_divide (a b p : Z) :
  p <> 0 -> (a mod p = b mod p <-> (p | a - b)).
Proof.
  intros Hp. rewrite Z.cong_iff_0. apply Z.mod_divide. exact Hp.
Qed.

Lemma inverse_ok (u p i : Z) :
  inverse u p = Ok i -> 0 < p /\ Z.gcd u p = 1 /\ (p | i * u - 1).
Proof.
  unfold inverse.
  destruct (Z.eqb_spec p 0); [discriminate|].
  destruct (Z.ltb_spec p 0); [discriminate|].
  destruct (Z.eqb_spec (Z.gcd u p) 1) as [Hg|]; [|discriminate].
  intros [= <-]. split; [lia|]. split; [exact Hg|].
  apply cong_divide; [lia|]. apply Z.invmod_coprime'. exact Hg.
Qed.

Lemma inverse_opp (d p : Z) :
  match inverse d p with
  | Ok i => exists i', inverse (- d) p = Ok i' /\ (p | i + i')
  | Raise e => inverse (- d) p = Raise e
  end.
Proof.
  destruct (inverse d p) as [i|e] eqn:Hi.
  - destruct (inverse_ok d p i Hi) as (Hp & Hg & Hdiv).
    assert (Hi' : inverse (- d) p = Ok (Z.invmod (- d) p)).
    { apply inverse_coprime; [exact Hp|]. rewrite Z.gcd_opp_l. exact Hg. }
    exists (Z.invmod (- d) p). split; [exact Hi'|].
    destruct (inverse_ok _ _ _ Hi') as (_ & _ & Hdiv').
    apply (Z.gauss p d); [|rewrite Z.gcd_comm; exact Hg].
    replace (d * (i + Z.invmod (- d) p))
      with ((i * d - 1) - (Z.invmod (- d) p * - d - 1)) by ring.
    apply Z.divide_sub_r; assumption.
  - unfold inverse in *. rewrite Z.gcd_opp_l.
    destruct (p =? 0); [exact Hi|]. destruct (p <? 0); [exact Hi|].
    destruct (Z.gcd d p =? 1); [discriminate|exact Hi].
Qed.

(** X1: [add] is commutative, failures included. *)
Theorem add_commutative (P Q : point) (E : curve) :
  add P Q E = add Q P E.
Proof.
  unfold add.
  destruct (point_eqb P (0, 0)) eqn:HP, (point_eqb Q (0, 0)) eqn:HQ;
    try reflexivity.
  { apply point_eqb_eq in HP, HQ. congruence. }
  destruct P as [x1 y1], Q as [x2 y2].
  rewrite (Z.eqb_sym x2 x1).
  assert (Hneg : (y2 =? - y1) = (y1 =? - y2)).
  { destruct (Z.eqb_spec y2 (- y1)), (Z.eqb_spec y1 (- y2)); try reflexivity; lia. }
  rewrite Hneg.
  destruct ((x1 =? x2) && (y1 =? - y2)); [reflexivity|].
  destruct (point_eqb (x1, y1) (x2, y2)) eqn:Heq.
  { apply point_eqb_eq in Heq. injection Heq as -> ->.
    rewrite point_eqb_refl. reflexivity. }
  assert (Heq' : point_eqb (x2, y2) (x1, y1) = false).
  { apply point_eqb_neq. apply point_eqb_neq in Heq. congruence. }
  rewrite Heq'. cbn [negb].
  pose proof (inverse_opp (x2 - x1) (Ep E)) as Hopp.
  replace (- (x2 - x1)) with (x1 - x2) in Hopp by ring.
  destruct (inverse (x2 - x1) (Ep E)) as [i|e] eqn:Hi.
  - destruct Hopp as (i' & Hi' & Hsum). rewrite Hi'. cbn [bind].
    destruct (inverse_ok _ _ _ Hi) as (Hp & _ & Hid).
    assert (Hp0 : Ep E <> 0) by lia.
    assert (Hx : (((y2 - y1) * i) ^ 2 - x1 - x2) mod Ep E =
                 (((y1 - y2) * i') ^ 2 - x2 - x1) mod Ep E).
    { apply cong_divide; [exact Hp0|].
      replace (((y2 - y1) * i) ^ 2 - x1 - x2 - (((y1 - y2) * i') ^ 2 - x2 - x1))
        with ((i + i') * ((y2 - y1) ^ 2 * (i - i'))) by ring.
      apply Z.divide_mul_l. exact Hsum. }
    f_equal. rewrite <- Hx. f_equal.
    set (X := (((y2 - y1) * i) ^ 2 - x1 - x2) mod Ep E).
    apply cong_divide; [exact Hp0|].
    replace ((y2 - y1) * i * (x1 - X) - y1 - ((y1 - y2) * i' * (x2 - X) - y2))
      with ((i + i') * ((y2 - y1) * (x2 - X)) -
            (i * (x2 - x1) - 1) * (y2 - y1)) by ring.
    apply Z.divide_sub_r; apply Z.divide_mul_l; assumption.
  - rewrite Hopp. reflexivity.
Qed.

Lemma on_curve_divide (a b p : Z) (P : point) :
  p <> 0 ->
  (on_curve a b p P <-> (p | fst P ^ 3 + a * fst P + b - snd P ^ 2)).
Proof.
  intros Hp. unfold on_curve. rewrite <- cong_divide by exact Hp.
  split; intros H; symmetry; exact H.
Qed.

(** The curve equation carries over to coordinates that are congruent
    modulo [p]. *)
Lemma curve_equation_transfer (a b p x y x' y' : Z) :
  (p | x' - x) -> (p | y' - y) ->
  (p | x ^ 3 + a * x + b - y ^ 2) ->
  (p | x' ^ 3 + a * x' + b - y' ^ 2).
Proof.
  intros Hx Hy H.
  replace (x' ^ 3 + a * x' + b - y' ^ 2)
    with ((x ^ 3 + a * x + b - y ^ 2) +
          (x' - x) * (x' ^ 2 + x' * x + x ^ 2 + a) - (y' - y) * (y' + y))
    by ring.
  apply Z.divide_sub_r; [apply Z.divide_add_r|]; try assumption;
    apply Z.divide_mul_l; assumption.
Qed.

Lemma mod_divide_sub (p u : Z) : p <> 0 -> (p | u mod p - u).
Proof.
  intros Hp. apply cong_divide; [exact Hp|]. apply Z.mod_mod. exact Hp.
Qed.

(** The point a slope [l] leads to lies on the curve as soon as the
    unreduced [(X3, Y3)] does. *)
Lemma slope_point_on_curve (a b p l x1 y1 x2 : Z) :
  p <> 0 ->
  let X3 := l ^ 2 - x1 - x2 in
  (p | X3 ^ 3 + a * X3 + b - (l * (x1 - X3) - y1) ^ 2) ->
  on_curve a b p
    ((l ^ 2 - x1 - x2) mod p,
     (l * (x1 - (l ^ 2 - x1 - x2) mod p) - y1) mod p).
Proof.
  intros Hp X3 H. apply on_curve_divide; [exact Hp|]. cbn [fst snd].
  fold X3.
  apply (curve_equation_transfer a b p X3 (l * (x1 - X3) - y1)).
  - apply mod_divide_sub. exact Hp.
  - replace ((l * (x1 - X3 mod p) - y1) mod p - (l * (x1 - X3) - y1))
      with (((l * (x1 - X3 mod p) - y1) mod p - (l * (x1 - X3 mod p) - y1)) -
            l * (X3 mod p - X3)) by ring.
    apply Z.divide_sub_r; [|apply Z.divide_mul_r]; apply mod_divide_sub;
      exact Hp.
  - exact H.
Qed.

(** The chord: the third point of the line through two points of the
    curve with distinct invertible [x2 - x1]. *)
Lemma chord_on_curve (a b p x1 y1 x2 y2 i : Z) :
  (p | x1 ^ 3 + a * x1 + b - y1 ^ 2) ->
  (p | x2 ^ 3 + a * x2 + b - y2 ^ 2) ->
  (p | i * (x2 - x1) - 1) ->
  let l := (y2 - y1) * i in
  let X3 := l ^ 2 - x1 - x2 in
  (p | X3 ^ 3 + a * X3 + b - (l * (x1 - X3) - y1) ^ 2).
Proof.
  intros H1 H2 Hi l X3.
  set (alpha := x1 ^ 2 + a + l ^ 2 * x1 - 2 * l * y1 - x2 * X3).
  assert (Hda : (p | (x2 - x1) * alpha)).
  { replace ((x2 - x1) * alpha)
      with ((x2 ^ 3 + a * x2 + b - y2 ^ 2) -
            (i * (x2 - x1) - 1) * ((y2 - y1) * (y2 + l * (x2 - x1) + y1)) -
            (x1 ^ 3 + a * x1 + b - y1 ^ 2))
      by (unfold alpha, X3, l; ring).
    apply Z.divide_sub_r; [apply Z.divide_sub_r|]; try assumption.
    apply Z.divide_mul_l. exact Hi. }
  assert (Ha : (p | alpha)).
  { replace alpha with (i * ((x2 - x1) * alpha) - (i * (x2 - x1) - 1) * alpha)
      by ring.
    apply Z.divide_sub_r; [apply Z.divide_mul_r|apply Z.divide_mul_l];
      assumption. }
  replace (X3 ^ 3 + a * X3 + b - (l * (x1 - X3) - y1) ^ 2)
    with ((x1 ^ 3 + a * x1 + b - y1 ^ 2) + (X3 - x1) * alpha)
    by (unfold alpha, X3; ring).
  apply Z.divide_add_r; [exact H1|apply Z.divide_mul_r; exact Ha].
Qed.

(** The tangent: doubling a point of the curve with invertible [2 * y1]. *)
Lemma tangent_on_curve (a b p x1 y1 i : Z) :
  (p | x1 ^ 3 + a * x1 + b - y1 ^ 2) ->
  (p | i * (2 * y1) - 1) ->
  let l := (3 * x1 ^ 2 + a) * i in
  let X3 := l ^ 2 - x1 - x1 in
  (p | X3 ^ 3 + a * X3 + b - (l * (x1 - X3) - y1) ^ 2).
Proof.
  intros H1 Hi l X3.
  replace (X3 ^ 3 + a * X3 + b - (l * (x1 - X3) - y1) ^ 2)
    with ((x1 ^ 3 + a * x1 + b - y1 ^ 2) -
          (i * (2 * y1) - 1) * ((X3 - x1) * (3 * x1 ^ 2 + a)))
    by (unfold X3, l; ring).
  apply Z.divide_sub_r; [exact H1|apply Z.divide_mul_l; exact Hi].
Qed.

(** [add] keeps its result on the curve its arguments lie on, whichever
    [b] that curve has. *)
Lemma add_on_curve (E : curve) (b : Z) (P Q S : point) :
  P = (0, 0) \/ on_curve (Ea E) b (Ep E) P ->
  Q = (0, 0) \/ on_curve (Ea E) b (Ep E) Q ->
  add P Q E = Ok S ->
  S = (0, 0) \/ on_curve (Ea E) b (Ep E) S.
Proof.
  intros HP HQ. unfold add.
  destruct (point_eqb P (0, 0)) eqn:HP0; [intros [= <-]; exact HQ|].
  destruct (point_eqb Q (0, 0)) eqn:HQ0; [intros [= <-]; exact HP|].
  apply point_eqb_neq in HP0, HQ0.
  destruct HP as [HP|HP]; [contradiction|].
  destruct HQ as [HQ|HQ]; [contradiction|].
  destruct P as [x1 y1], Q as [x2 y2].
  destruct ((x1 =? x2) && (y1 =? - y2)); [intros [= <-]; left; reflexivity|].
  destruct (point_eqb (x1, y1) (x2, y2)) eqn:Heq; cbn [negb].
  - apply point_eqb_eq in Heq. injection Heq as <- <-.
    destruct (inverse (2 * y1) (Ep E)) as [i|e] eqn:Hi; [|discriminate].
    cbn [bind]. intros [= <-]. right.
    destruct (inverse_ok _ _ _ Hi) as (Hp & _ & Hid).
    assert (Hp0 : Ep E <> 0) by lia.
    apply slope_point_on_curve; [exact Hp0|].
    apply tangent_on_curve; [|exact Hid].
    apply (on_curve_divide _ _ _ (x1, y1)); assumption.
  - destruct (inverse (x2 - x1) (Ep E)) as [i|e] eqn:Hi; [|discriminate].
    cbn [bind]. intros [= <-]. right.
    destruct (inverse_ok _ _ _ Hi) as (Hp & _ & Hid).
    assert (Hp0 : Ep E <> 0) by lia.
    apply slope_point_on_curve; [exact Hp0|].
    apply (chord_on_curve _ _ _ x1 y1 x2 y2 i); [| |exact Hid].
    + apply (on_curve_divide _ _ _ (x1, y1)); assumption.
    + apply (on_curve_divide _ _ _ (x2, y2)); assumption.
Qed.

Lemma multiply_loop_on_curve (E : curve) (b : Z) :
  forall (n : Z) (Q R S : point),
  Q = (0, 0) \/ on_curve (Ea E) b (Ep E) Q ->
  R = (0, 0) \/ on_curve (Ea E) b (Ep E) R ->
  multiply_loop E Q R n = Ok S ->
  S = (0, 0) \/ on_curve (Ea E) b (Ep E) S.
Proof.
  intros n. pattern n. apply halving_ind. clear n.
  intros n IH Q R S HQ HR. rewrite multiply_loop_unfold.
  destruct (Z.gtb_spec n 0) as [Hn|Hn]; [|intros [= <-]; exact HR].
  destruct (if n mod 2 =? 1 then add R Q E else Ok R) as [R'|e] eqn:HR';
    simpl; [|discriminate].
  destruct (add Q Q E) as [Q'|e] eqn:HQ'; simpl; [|discriminate].
  apply IH; [lia| |].
  - apply (add_on_curve E b Q Q); assumption.
  - destruct (n mod 2 =? 1).
    + apply (add_on_curve E b R Q); assumption.
    + injection HR' as <-. exact HR.
Qed.

(** X2: the group law never leaves the curve of its arguments.  If [P]
    and [Q] are each [(0, 0)] or a point of [y^2 = x^3 + a*x + b] modulo
    [p], for any [b] at all, then so is whatever [add(P, Q, E)] returns,
    and so is whatever [multiply(P, n, E)] returns. *)
Theorem group_law_stays_on_curve (E : curve) (b : Z) (P Q S : point) (n : Z) :
  P = (0, 0) \/ on_curve (Ea E) b (Ep E) P ->
  (Q = (0, 0) \/ on_curve (Ea E) b (Ep E) Q ->
   add P Q E = Ok S -> S = (0, 0) \/ on_curve (Ea E) b (Ep E) S) /\
  (multiply P n E = Ok S -> S = (0, 0) \/ on_curve (Ea E) b (Ep E) S).
Proof.
  intros HP. split.
  - intros HQ. apply add_on_curve; assumption.
  - unfold multiply. apply multiply_loop_on_curve; [exact HP|].
    left. reflexivity.
Qed.

(** X2 over the prime 5 with [a = 1]: [(1, 1)] and [(2, 2)] lie on the
    curve with [b = 4], which is not the [b] of the dictionary, and so
    does their sum [(3, 2)]. *)
Lemma group_law_stays_on_curve_witness :
  add (1, 1) (2, 2) (mkCurve 1 1 5) = Ok (3, 2) /\
  ((3, 2) = (0, 0) \/ on_curve 1 4 5 (3, 2)).
Proof.
  destruct (group_law_stays_on_curve (mkCurve 1 1 5) 4 (1, 1) (2, 2) (3, 2) 0)
    as [Hadd _].
  { right. reflexivity. }
  split; [by_running|].
  apply Hadd; [right; reflexivity|by_running].
Defined.

(** X3: every answer of the oracle to a pair of integers [(x, y)] is
    [(0, 0)] or a point of the curve [y^2 = x^3 + a*x + b'] through the
    submitted point, [b' = y^2 - x^3 - a*x]; the [b] of the server's
    dictionary plays no part. *)
Theorem oracle_answers_on_submitted_curve (E : curve) (secret x y : Z)
    (S : point) :
  server_oracle E secret (Iterable [IntLike x; IntLike y]) = Ok (Some S) ->
  S = (0, 0) \/ on_curve (Ea E) (y ^ 2 - x ^ 3 - Ea E * x) (Ep E) S.
Proof.
  unfold server_oracle. cbn [unpack2 comprehension to_int bind].
  destruct (multiply (x, y) secret E) as [S'|e] eqn:Hm; cbn [bind try_except];
    [|discriminate].
  intros [= <-]. revert Hm. unfold multiply.
  apply multiply_loop_on_curve; [|left; reflexivity].
  right. unfold on_curve. cbn [fst snd]. f_equal. ring.
Qed.

(** X3 on the small test server, queried with [(1, 2)]. *)
Lemma oracle_answers_on_submitted_curve_witness :
  on_curve SmallP.a (2 ^ 2 - 1 ^ 3 - SmallP.a * 1) SmallP.p
    (169636666506223322267726230, 169414693074300972224663603).
Proof.
  assert (Hq : server_oracle SmallP.E SmallP.secret
                 (Iterable [IntLike 1; IntLike 2]) =
               Ok (Some (169636666506223322267726230,
                         169414693074300972224663603))) by by_running.
  destruct (oracle_answers_on_submitted_curve SmallP.E SmallP.secret 1 2 _ Hq)
    as [H|H]; [discriminate H|exact H].
Defined.

(** Once the doubled point has become [(0, 0)] the running sum no
    longer changes. *)
Lemma multiply_loop_infinity (E : curve) :
  forall (n : Z) (R : point), multiply_loop E (0, 0) R n = Ok R.
Proof.
  intros n. pattern n. apply halving_ind. clear n.
  intros n IH R. rewrite multiply_loop_unfold.
  destruct (Z.gtb_spec n 0) as [Hn|Hn]; [|reflexivity].
  assert (HR : add R (0, 0) E = Ok R).
  { unfold add. destruct (point_eqb R (0, 0)) eqn:H0; [|reflexivity].
    apply point_eqb_eq in H0. rewrite H0. reflexivity. }
  rewrite HR. change (add (0, 0) (0, 0) E) with (@Ok point (0, 0)).
  destruct (n mod 2 =? 1); simpl; apply IH; lia.
Qed.

Lemma double_order_two (E : curve) (x : Z) :
  add (x, 0) (x, 0) E = Ok (0, 0).
Proof.
  unfold add. destruct (point_eqb (x, 0) (0, 0)) eqn:H0.
  - apply point_eqb_eq in H0. rewrite H0. reflexivity.
  - rewrite Z.eqb_refl. reflexivity.
Qed.

(** X4: scalars that are not positive, negative ones included, give
    [(0, 0)]; and [(0, 0)] times any scalar is [(0, 0)]. *)
Theorem multiply_trivial_cases (E : curve) (P : point) (n : Z) :
  (n <= 0 -> multiply P n E = Ok (0, 0)) /\
  multiply (0, 0) n E = Ok (0, 0).
Proof.
  split.
  - intros Hn. unfold multiply. rewrite multiply_loop_unfold.
    destruct (Z.gtb_spec n 0); [lia|reflexivity].
  - apply multiply_loop_infinity.
Qed.

(** X4 at the scalar -5 on the small test curve. *)
Lemma multiply_trivial_cases_witness :
  multiply (1, 2) (-5) SmallP.E = Ok (0, 0).
Proof.
  exact (proj1 (multiply_trivial_cases SmallP.E (1, 2) (-5)) ltac:(lia)).
Defined.

(** X5: a point with [y = 0] has order two under [multiply], for every
    [x] and every curve dictionary: a positive odd scalar gives the point
    back as submitted, any other scalar gives [(0, 0)].  The oracle
    therefore answers such a point with the parity of its secret. *)
Theorem order_two_point (E : curve) (x n : Z) :
  multiply (x, 0) n E =
    Ok (if (0 <? n) && Z.odd n then (x, 0) else (0, 0)) /\
  server_oracle E n (Iterable [IntLike x; IntLike 0]) =
    Ok (Some (if (0 <? n) && Z.odd n then (x, 0) else (0, 0))).
Proof.
  assert (Hm : multiply (x, 0) n E =
               Ok (if (0 <? n) && Z.odd n then (x, 0) else (0, 0))).
  { unfold multiply. rewrite multiply_loop_unfold.
    rewrite Z.gtb_ltb. destruct (Z.ltb_spec 0 n) as [Hn|Hn]; [|reflexivity].
    rewrite double_order_two, <- Zodd_mod. cbn [andb].
    change (add (0, 0) (x, 0) E) with (@Ok point (x, 0)).
    destruct (Z.odd n); simpl; apply multiply_loop_infinity. }
  split; [exact Hm|].
  unfold server_oracle. cbn [unpack2 comprehension to_int bind].
  rewrite Hm. reflexivity.
Qed.

(** X6: over a positive modulus [multiply] maps points with coordinates
    in [[0, p)] to points with coordinates in [[0, p)], for every
    scalar. *)
Theorem multiply_reduced (E : curve) (P S : point) (n : Z) :
  0 < Ep E -> reduced (Ep E) P ->
  multiply P n E = Ok S -> reduced (Ep E) S.
Proof.
  intros Hp HP. unfold multiply.
  apply multiply_loop_reduced; [exact Hp|exact HP|].
  unfold reduced. simpl. lia.
Qed.

(** X6 on the small test curve: 5 times [(1, 2)]. *)
Lemma multiply_reduced_witness :
  reduced SmallP.p (152490110711403286935175466, 72715784343509184897223522).
Proof.
  apply (multiply_reduced SmallP.E (1, 2) _ 5).
  - reflexivity.
  - split; by_running.
  - by_running.
Defined.

(** X7: double-and-add halves an even scalar: for [n > 0],
    [multiply(P, 2n, E)] is [multiply(2P, n, E)], and fails when the
    doubling of [P] fails. *)
Theorem multiply_even_scalar (E : curve) (P : point) (n : Z) :
  0 < n ->
  multiply P (2 * n) E = (D <- add P P E ;; multiply D n E).
Proof.
  intros Hn. unfold multiply. rewrite multiply_loop_unfold.
  destruct (Z.gtb_spec (2 * n) 0); [|lia].
  rewrite (Z.mul_comm 2 n), Z_mod_mult, Z.div_mul by lia. reflexivity.
Qed.

(** X7 on the small test curve with [P = (1, 2)] and [n = 3]. *)
Lemma multiply_even_scalar_witness :
  multiply (1, 2) (2 * 3) SmallP.E =
  (D <- add (1, 2) (1, 2) SmallP.E ;; multiply D 3 SmallP.E).
Proof.
  apply (multiply_even_scalar SmallP.E (1, 2) 3). lia.
Defined.

Lemma comprehension_to_int (items : list item) (l : list Z) :
  comprehension to_int items = Ok l -> items = map IntLike l.
Proof.
  revert l. induction items as [|i items IH]; intros l; simpl.
  - intros [= <-]. reflexivity.
  - destruct i as [z|]; simpl; [|discriminate].
    destruct (comprehension to_int items) as [l'|e]; simpl; [|discriminate].
    intros [= <-]. simpl. f_equal. apply IH. reflexivity.
Qed.

(** X8: [server_oracle] answers [None] to every argument that is not an
    iterable of exactly two items accepted by [int]. *)
Theorem oracle_rejects_malformed (E : curve) (secret : Z) (C : arg) :
  (forall x y, C <> Iterable [IntLike x; IntLike y]) ->
  server_oracle E secret C = Ok None.
Proof.
  intros HC. unfold server_oracle.
  destruct C as [|items]; [reflexivity|]. cbn [unpack2].
  destruct (comprehension to_int items) as [l|e] eqn:Hl; [|reflexivity].
  apply comprehension_to_int in Hl. subst items. cbn [bind].
  destruct l as [|x [|y [|z l]]]; try reflexivity.
  exfalso. apply (HC x y). reflexivity.
Qed.

(** X8 at a triple and at a pair holding an item [int] refuses. *)
Lemma oracle_rejects_malformed_witness :
  server_oracle SmallP.E SmallP.secret
    (Iterable [IntLike 1; IntLike 2; IntLike 3]) = Ok None /\
  server_oracle SmallP.E SmallP.secret (Iterable [IntLike 1; NotIntLike]) =
    Ok None.
Proof.
  split; apply oracle_rejects_malformed; intros x y H; discriminate H.
Defined.

(** X9: negating [y] as an integer is what [add] recognises as the
    inverse: [(x, y) + (x, -y)] is [(0, 0)] for all integers [x], [y] and
    every curve dictionary, with no reduction modulo [p] involved. *)
Theorem add_integer_negative (E : curve) (x y : Z) :
  add (x, y) (x, - y) E = Ok (0, 0).
Proof.
  unfold add.
  destruct (point_eqb (x, y) (0, 0)) eqn:HP.
  - apply point_eqb_eq in HP. injection HP as -> ->. reflexivity.
  - destruct (point_eqb (x, - y) (0, 0)) eqn:HQ.
    + apply point_eqb_eq in HQ. injection HQ as -> Hy.
      apply point_eqb_neq in HP. exfalso. apply HP. f_equal. lia.
    + rewrite Z.eqb_refl, Z.opp_involutive, Z.eqb_refl. reflexivity.
Qed.

(* ===================================================================== *)
(** ** Further properties of the timeout wrapper *)
(* ===================================================================== *)

Lemma retry_loop_first_success {A : Type} (truthy : A -> bool)
    (func : Z -> attempt A) (max_timeout d : Z) :
  d < max_timeout -> failed truthy (func d) = false ->
  forall (k : nat) (start : Z) (result : option A),
  0 < start -> start <= d -> Z.to_nat (d - start) = k ->
  (forall d', start <= d' < d -> failed truthy (func d') = true) ->
  retry_loop truthy func start max_timeout result =
  (deadlines start (S k), run_func_with_timeout func d).
Proof.
  intros Hd Hok. induction k as [|k IH]; intros start result Hs Hsd Hk Hprev;
    rewrite retry_loop_unfold;
    (destruct (Z.ltb_spec start max_timeout); [|lia]).
  - assert (start = d) by lia. subst start.
    rewrite deadlines_S. unfold deadlines. simpl map.
    destruct (run_not_failed truthy func d Hs Hok)
      as [(e & Hr & _)|(r & Hr & Htrue & _)]; rewrite Hr; try rewrite Htrue;
      reflexivity.
  - assert (Hf : failed truthy (func start) = true) by (apply Hprev; lia).
    destruct (run_failed truthy func start Hs Hf) as (r & Hr & Hfalse & _).
    rewrite Hr, Hfalse. cbv zeta.
    rewrite (IH (start + 1) r); [|lia|lia|lia|intros; apply Hprev; lia].
    cbn [fst snd]. rewrite (deadlines_S start (S k)). reflexivity.
Qed.

(** X10: the first attempt that neither times out nor returns a falsy
    value decides the run: the alarms armed are [timeout] up to that
    attempt's, a value it returns is returned, and an exception it raises
    leaves [loop_func_with_timeout] without further attempts. *)
Theorem first_success_decides {A : Type} (truthy : A -> bool)
    (func : Z -> attempt A) (timeout max_timeout d : Z) :
  0 < timeout -> timeout <= d < max_timeout ->
  (forall d', timeout <= d' < d -> failed truthy (func d') = true) ->
  failed truthy (func d) = false ->
  let run := loop_func_with_timeout truthy func timeout
               (Some (Some max_timeout)) in
  fst run = deadlines timeout (Z.to_nat (d - timeout) + 1) /\
  (forall v, func d = Returns v -> snd run = Ok v) /\
  (forall e, func d = Raises e -> snd run = Raise e).
Proof.
  intros Ht Hd Hprev Hok run. subst run.
  rewrite loop_func_with_timeout_unfold by lia.
  rewrite (retry_loop_first_success truthy func max_timeout d
             (proj2 Hd) Hok (Z.to_nat (d - timeout)) timeout None Ht
             (proj1 Hd) eq_refl Hprev).
  cbn [fst snd]. rewrite Nat.add_1_r. split; [reflexivity|].
  unfold run_func_with_timeout. destruct (Z.gtb_spec d 0); [|lia].
  split; intros x Hx; rewrite Hx; reflexivity.
Qed.

(** X10 with [timeout = 2], [max_timeout = 6]: the call times out under
    alarms 2 and 3 and raises [ValueError] under 4; alarm 5 is never
    armed. *)
Lemma first_success_decides_witness :
  loop_func_with_timeout (fun l : list Z => nonempty l)
    (fun d => if d <? 4 then TimesOut else Raises ValueError)
    2 (Some (Some 6)) = ([2; 3; 4], Raise ValueError).
Proof.
  assert (Hprev : forall d', 2 <= d' < 4 ->
            failed (fun l : list Z => nonempty l)
              (if d' <? 4 then TimesOut else Raises ValueError) = true).
  { intros d' Hd'. destruct (Z.ltb_spec d' 4); [reflexivity|lia]. }
  destruct (first_success_decides (fun l : list Z => nonempty l)
              (fun d => if d <? 4 then TimesOut else Raises ValueError)
              2 6 4 ltac:(lia) ltac:(lia) Hprev eq_refl)
    as (Htr & _ & Hraise).
  specialize (Hraise ValueError eq_refl).
  destruct (loop_func_with_timeout _ _ _ _) as [tr out].
  cbn [fst snd] in Htr, Hraise. rewrite Htr, Hraise. reflexivity.
Defined.

(** X11: the guards of the wrapper fire before the wrapped call is ever
    made.  [max_timeout=None] passed as a keyword raises [TypeError];
    a ceiling not above [timeout], or a [timeout] that is not positive
    (also with the default ceiling [timeout + 5]), raises
    [AssertionError]; and [run_func_with_timeout] refuses a deadline
    that is not positive whatever the call would do. *)
Theorem wrapper_guards {A : Type} (truthy : A -> bool)
    (func : Z -> attempt A) (timeout : Z) :
  loop_func_with_timeout truthy func timeout (Some None) =
    ([], Raise TypeError) /\
  (forall max_timeout, max_timeout <= timeout \/ timeout <= 0 ->
     loop_func_with_timeout truthy func timeout (Some (Some max_timeout)) =
       ([], Raise AssertionError)) /\
  (timeout <= 0 ->
     loop_func_with_timeout truthy func timeout None =
       ([], Raise AssertionError) /\
     run_func_with_timeout func timeout = Raise AssertionError).
Proof.
  split; [reflexivity|]. split.
  - intros m Hm. unfold loop_func_with_timeout.
    destruct (Z.gtb_spec m timeout); [|reflexivity].
    destruct (Z.gtb_spec timeout 0); [lia|reflexivity].
  - intros Ht. split.
    + unfold loop_func_with_timeout.
      destruct (Z.gtb_spec (timeout + 5) timeout); [|reflexivity].
      destruct (Z.gtb_spec timeout 0); [lia|reflexivity].
    + unfold run_func_with_timeout.
      destruct (Z.gtb_spec timeout 0); [lia|reflexivity].
Qed.

(** X11 at [timeout = 3] with the ceiling 3, and at [timeout = 0]. *)
Lemma wrapper_guards_witness :
  loop_func_with_timeout (fun l : list Z => nonempty l)
    (fun _ => Returns (Some [2])) 3 (Some (Some 3)) =
    ([], Raise AssertionError) /\
  loop_func_with_timeout (fun l : list Z => nonempty l)
    (fun _ => Returns (Some [2])) 0 None = ([], Raise AssertionError).
Proof.
  split.
  - destruct (wrapper_guards (fun l : list Z => nonempty l)
                (fun _ => Returns (Some [2])) 3) as (_ & Hceil & _).
    apply Hceil. left. lia.
  - destruct (wrapper_guards (fun l : list Z => nonempty l)
                (fun _ => Returns (Some [2])) 0) as (_ & _ & Hzero).
    apply Hzero. lia.
Defined.

(* ===================================================================== *)
(** ** Further properties of the factorisation helpers *)
(* ===================================================================== *)

Lemma skipn_nth_error {T : Type} (l : list T) (i : nat) (x : T) :
  nth_error l i = Some x -> skipn i l = x :: skipn (S i) l.
Proof.
  revert i. induction l as [|y l IH]; intros [|i]; simpl; try discriminate.
  - intros [= ->]. reflexivity.
  - intros H. rewrite (IH i H). reflexivity.
Qed.

Section MoreFactorFacts.
Variable factor_factordb : Z -> list Z.
Variable is_prime : Z -> bool.
Variable ecm_factor : Z -> Z -> attempt (list Z).

(** From a position on which only primes are left, the loop over the
    factors changes nothing. *)
Lemma for_X_in_factors_primes (timeout : Z) (max_timeout : option Z)
    (factors : list Z) :
  forall (fuel i : nat),
  forallb is_prime (skipn i factors) = true ->
  (length factors - i <= fuel)%nat ->
  for_X_in_factors is_prime ecm_factor fuel i factors timeout max_timeout =
  Some (Ok factors).
Proof.
  induction fuel as [|fuel IH]; intros i Hall Hfuel; simpl;
    (destruct (nth_error factors i) as [X|] eqn:Hnth; [|reflexivity]).
  - assert (i < length factors)%nat by (apply nth_error_Some; congruence). lia.
  - rewrite (skipn_nth_error _ _ _ Hnth) in Hall. simpl in Hall.
    apply andb_true_iff in Hall. destruct Hall as [HX Hall].
    rewrite HX. cbn [negb]. apply IH; [exact Hall|lia].
Qed.

(** With [max_timeout] left at [None], the first composite the loop
    meets makes the timeout wrapper raise [TypeError]. *)
Lemma for_X_in_factors_default (timeout : Z) (factors : list Z) :
  forall (fuel i : nat),
  forallb is_prime (skipn i factors) = false ->
  (length factors - i <= fuel)%nat ->
  for_X_in_factors is_prime ecm_factor fuel i factors timeout None =
  Some (Raise TypeError).
Proof.
  induction fuel as [|fuel IH]; intros i Hall Hfuel; simpl;
    destruct (nth_error factors i) as [X|] eqn:Hnth.
  - assert (i < length factors)%nat by (apply nth_error_Some; congruence). lia.
  - apply nth_error_None in Hnth. rewrite skipn_all2 in Hall by lia.
    discriminate.
  - rewrite (skipn_nth_error _ _ _ Hnth) in Hall. simpl in Hall.
    destruct (is_prime X); cbn [negb]; [|reflexivity].
    apply IH; [exact Hall|lia].
  - apply nth_error_None in Hnth. rewrite skipn_all2 in Hall by lia.
    discriminate.
Qed.

(** The step of the loop at a composite [X] that ECM factors into [l]. *)
Lemma for_X_in_factors_replace (timeout max_timeout d X : Z) (l : list Z)
    (factors : list Z) (fuel i : nat) :
  0 < timeout -> timeout <= d < max_timeout ->
  (forall d', timeout <= d' < d -> failed nonempty (ecm_factor X d') = true) ->
  ecm_factor X d = Returns (Some l) -> nonempty l = true ->
  nth_error factors i = Some X -> is_prime X = false ->
  for_X_in_factors is_prime ecm_factor (S fuel) i factors timeout
    (Some max_timeout) =
  for_X_in_factors is_prime ecm_factor fuel (S i)
    (remove_first X factors ++ l) timeout (Some max_timeout).
Proof.
  intros Ht Hd Hprev Hecm Hl Hnth HX. simpl. rewrite Hnth, HX. cbn [negb].
  assert (Hok : failed nonempty (ecm_factor X d) = false).
  { rewrite Hecm. simpl. rewrite Hl. reflexivity. }
  rewrite loop_func_with_timeout_unfold by lia.
  rewrite (retry_loop_first_success nonempty (ecm_factor X) max_timeout d
             (proj2 Hd) Hok (Z.to_nat (d - timeout)) timeout None Ht
             (proj1 Hd) eq_refl Hprev).
  cbn [snd]. unfold run_func_with_timeout.
  destruct (Z.gtb_spec d 0); [|lia].
  rewrite Hecm. simpl. rewrite Hl. reflexivity.
Qed.
End MoreFactorFacts.

(** X12: leaving [max_timeout] out breaks the factorisation helpers: the
    default [None] reaches the timeout wrapper as a keyword, so
    [safe_factorization] raises [TypeError] before calling anything, and
    [factor_integer] and [get_factors] raise it as soon as FactorDB's
    list holds an element that is not prime. *)
Theorem default_max_timeout_raises (factor_factordb : Z -> list Z)
    (is_prime : Z -> bool) (ecm_factor : Z -> Z -> attempt (list Z))
    (fuel : nat) (N timeout : Z) (factor_dict : bool) :
  safe_factorization nonempty ecm_factor N timeout None =
    ([], Raise TypeError) /\
  (forallb is_prime (factor_factordb N) = false ->
   (length (factor_factordb N) <= fuel)%nat ->
   factor_integer factor_factordb is_prime ecm_factor fuel N timeout None =
     Some (Raise TypeError) /\
   get_factors factor_factordb is_prime ecm_factor fuel N timeout None
     factor_dict = Some (Raise TypeError)).
Proof.
  split; [reflexivity|]. intros Hall Hfuel.
  assert (Hfi : factor_integer factor_factordb is_prime ecm_factor fuel N
                  timeout None = Some (Raise TypeError)).
  { unfold factor_integer. rewrite Hall.
    apply for_X_in_factors_default; [exact Hall|lia]. }
  split; [exact Hfi|]. unfold get_factors. rewrite Hfi. reflexivity.
Qed.

(** X12 where FactorDB answers [3; 35] for 105. *)
Lemma default_max_timeout_raises_witness :
  factor_integer (fun _ => [3; 35]) trial_division
    (fun _ _ => Returns (Some [5; 7])) 2 105 1 None = Some (Raise TypeError).
Proof.
  destruct (default_max_timeout_raises (fun _ => [3; 35]) trial_division
              (fun _ _ => Returns (Some [5; 7])) 2 105 1 false) as [_ H].
  apply H; [reflexivity|simpl; lia].
Defined.

(** X13: the success path.  When FactorDB answers with the single
    composite [X] and ECM, after attempts that fail, returns a non-empty
    list [l] of primes under a deadline below the ceiling,
    [factor_integer] returns [l]. *)
Theorem ecm_replaces_composite (factor_factordb : Z -> list Z)
    (is_prime : Z -> bool) (ecm_factor : Z -> Z -> attempt (list Z))
    (fuel : nat) (N timeout max_timeout d X : Z) (l : list Z) :
  factor_factordb N = [X] -> is_prime X = false ->
  0 < timeout -> timeout <= d < max_timeout ->
  (forall d', timeout <= d' < d -> failed nonempty (ecm_factor X d') = true) ->
  ecm_factor X d = Returns (Some l) ->
  nonempty l = true -> forallb is_prime l = true ->
  (length l <= fuel)%nat ->
  factor_integer factor_factordb is_prime ecm_factor fuel N timeout
    (Some max_timeout) = Some (Ok l).
Proof.
  intros HN HX Ht Hd Hprev Hecm Hl Hprimes Hfuel.
  unfold factor_integer. rewrite HN. simpl forallb. rewrite HX. cbn [andb].
  destruct fuel as [|fuel]; [destruct l; [discriminate|simpl in Hfuel; lia]|].
  rewrite (for_X_in_factors_replace is_prime ecm_factor timeout max_timeout d
             X l [X] fuel 0 Ht Hd Hprev Hecm Hl eq_refl HX).
  simpl remove_first. rewrite Z.eqb_refl. simpl app.
  apply for_X_in_factors_primes.
  - destruct l as [|x l]; [discriminate|]. simpl in Hprimes |- *.
    apply andb_true_iff in Hprimes. apply Hprimes.
  - simpl in Hfuel. lia.
Qed.

(** X13 where FactorDB answers [35] for 35 and ECM times out under the
    first alarm and returns [5; 7] under the second. *)
Lemma ecm_replaces_composite_witness :
  factor_integer (fun _ => [35]) trial_division
    (fun _ d => if d <? 2 then TimesOut else Returns (Some [5; 7]))
    2 35 1 (Some 4) = Some (Ok [5; 7]).
Proof.
  apply (ecm_replaces_composite (fun _ => [35]) trial_division
           (fun _ d => if d <? 2 then TimesOut else Returns (Some [5; 7]))
           2 35 1 4 2 35 [5; 7]); try reflexivity; try lia.
  intros d' Hd'. destruct (Z.ltb_spec d' 2); [reflexivity|lia].
Defined.

(** X14: removing from the list while walking it skips the next element.
    When FactorDB answers [X; Y] with [X] composite and ECM factors [X]
    into the primes [l], [factor_integer] returns [Y :: l]: [Y] is never
    tested for primality nor handed to ECM, whatever it is. *)
Theorem element_after_composite_skipped (factor_factordb : Z -> list Z)
    (is_prime : Z -> bool) (ecm_factor : Z -> Z -> attempt (list Z))
    (fuel : nat) (N timeout max_timeout d X Y : Z) (l : list Z) :
  factor_factordb N = [X; Y] -> is_prime X = false ->
  0 < timeout -> timeout <= d < max_timeout ->
  (forall d', timeout <= d' < d -> failed nonempty (ecm_factor X d') = true) ->
  ecm_factor X d = Returns (Some l) ->
  nonempty l = true -> forallb is_prime l = true ->
  (S (length l) <= fuel)%nat ->
  factor_integer factor_factordb is_prime ecm_factor fuel N timeout
    (Some max_timeout) = Some (Ok (Y :: l)).
Proof.
  intros HN HX Ht Hd Hprev Hecm Hl Hprimes Hfuel.
  unfold factor_integer. rewrite HN. simpl forallb. rewrite HX. cbn [andb].
  destruct fuel as [|fuel]; [lia|].
  rewrite (for_X_in_factors_replace is_prime ecm_factor timeout max_timeout d
             X l [X; Y] fuel 0 Ht Hd Hprev Hecm Hl eq_refl HX).
  simpl remove_first. rewrite Z.eqb_refl. simpl app.
  apply for_X_in_factors_primes; [exact Hprimes|simpl; lia].
Qed.

(** X14 where FactorDB answers [4; 6] and ECM would factor both: 6 stays
    in the result. *)
Lemma element_after_composite_skipped_witness :
  factor_integer (fun _ => [4; 6]) trial_division
    (fun X _ => if X =? 4 then Returns (Some [2; 2]) else Returns (Some [2; 3]))
    3 24 1 (Some 3) = Some (Ok [6; 2; 2]).
Proof.
  apply (element_after_composite_skipped (fun _ => [4; 6]) trial_division
           (fun X _ => if X =? 4 then Returns (Some [2; 2])
                       else Returns (Some [2; 3]))
           3 24 1 3 1 4 6 [2; 2]); try reflexivity; lia.
Defined.

Lemma insert_sorted_In (x y : Z) (l : list Z) :
  In y (insert_sorted x l) <-> y = x \/ In y l.
Proof.
  induction l as [|z l IH]; simpl.
  - intuition.
  - destruct (x <=? z); simpl; [intuition|]. rewrite IH. intuition.
Qed.

Lemma insert_sorted_Sorted (x : Z) (l : list Z) :
  Sorted Z.le l -> Sorted Z.le (insert_sorted x l).
Proof.
  induction l as [|z l IH]; intros Hs; simpl.
  - repeat constructor.
  - destruct (Z.leb_spec x z) as [Hle|Hgt].
    + constructor; [exact Hs|]. constructor. exact Hle.
    + inversion Hs as [|? ? Hs' Hhd]; subst. constructor; [apply IH; exact Hs'|].
      destruct l as [|w l]; simpl.
      * constructor. lia.
      * destruct (x <=? w); constructor; [lia|].
        inversion Hhd; subst. assumption.
Qed.

Lemma insert_sorted_product (x : Z) (l : list Z) :
  product (insert_sorted x l) = x * product l.
Proof.
  induction l as [|z l IH]; simpl; [reflexivity|].
  destruct (x <=? z); simpl; [reflexivity|]. rewrite IH. ring.
Qed.

Lemma sorted_facts (l : list Z) :
  Sorted Z.le (sorted l) /\ product (sorted l) = product l /\
  (forall x, In x (sorted l) <-> In x l).
Proof.
  induction l as [|z l (Hs & Hp & Hin)]; simpl.
  - repeat split; auto.
  - split; [apply insert_sorted_Sorted; exact Hs|]. split.
    + rewrite insert_sorted_product, Hp. reflexivity.
    + intros x. rewrite insert_sorted_In, Hin. intuition.
Qed.

Lemma count_up_counted (k k' : Z) (c : list (Z * Z)) :
  counted (count_up k c) k' = counted c k' + (if k' =? k then 1 else 0).
Proof.
  induction c as [|[k0 v] c IH]; simpl.
  - destruct (k' =? k); reflexivity.
  - destruct (Z.eqb_spec k k0) as [->|Hne]; simpl.
    + destruct (k' =? k0); lia.
    + rewrite IH. destruct (Z.eqb_spec k' k0) as [->|]; [|reflexivity].
      destruct (Z.eqb_spec k0 k); [congruence|lia].
Qed.

Lemma count_up_keys (k k' : Z) (c : list (Z * Z)) :
  In k' (map fst (count_up k c)) <-> k' = k \/ In k' (map fst c).
Proof.
  induction c as [|[k0 v] c IH]; simpl.
  - intuition.
  - destruct (Z.eqb_spec k k0) as [->|Hne]; simpl; [intuition|].
    rewrite IH. intuition.
Qed.

Lemma count_up_NoDup (k : Z) (c : list (Z * Z)) :
  NoDup (map fst c) -> NoDup (map fst (count_up k c)).
Proof.
  induction c as [|[k0 v] c IH]; simpl; intros Hnd.
  - repeat constructor. intros [].
  - inversion Hnd as [|? ? Hnotin Hnd']; subst.
    destruct (Z.eqb_spec k k0) as [->|Hne]; simpl.
    + constructor; assumption.
    + constructor; [|apply IH; exact Hnd'].
      rewrite count_up_keys. intros [?|?]; [congruence|contradiction].
Qed.

Lemma count_up_nonneg (k : Z) (c : list (Z * Z)) :
  Forall (fun kv => 0 <= snd kv) c ->
  Forall (fun kv => 0 <= snd kv) (count_up k c) /\
  product (map (fun kv => fst kv ^ snd kv) (count_up k c)) =
  k * product (map (fun kv => fst kv ^ snd kv) c).
Proof.
  unfold product.
  induction c as [|[k0 v] c IH]; cbn [count_up]; intros Hnn.
  - cbn [map fold_right fst snd].
    split; [repeat constructor; simpl; lia|]. rewrite Z.pow_1_r. reflexivity.
  - inversion Hnn as [|? ? Hv Hnn']; subst. cbn [snd] in Hv.
    destruct (Z.eqb_spec k k0) as [->|Hne]; cbn [map fold_right fst snd].
    + split; [constructor; [cbn [snd]; lia|exact Hnn']|].
      rewrite Z.pow_add_r, Z.pow_1_r by lia. ring.
    + destruct (IH Hnn') as [Hnn'' Hprod].
      split; [constructor; assumption|]. rewrite Hprod. ring.
Qed.

Lemma counted_In (c : list (Z * Z)) (k v : Z) :
  NoDup (map fst c) ->
  (In (k, v) c <-> In k (map fst c) /\ v = counted c k).
Proof.
  induction c as [|[k0 v0] c IH]; simpl; intros Hnd.
  - intuition.
  - inversion Hnd as [|? ? Hnotin Hnd']; subst. specialize (IH Hnd').
    destruct (Z.eqb_spec k k0) as [->|Hne].
    + split.
      * intros [[= ->]|Hin]; [auto|].
        exfalso. apply Hnotin. apply IH in Hin. apply Hin.
      * intros [_ ->]. left. reflexivity.
    + rewrite IH. split.
      * intros [[= ? ?]|[? ?]]; [congruence|auto].
      * intros [[?|?] ?]; [congruence|auto].
Qed.

Lemma Counter_fold (l : list Z) :
  forall c, NoDup (map fst c) -> Forall (fun kv => 0 <= snd kv) c ->
  let c' := fold_left (fun c k => count_up k c) l c in
  NoDup (map fst c') /\
  product (map (fun kv => fst kv ^ snd kv) c') =
    product l * product (map (fun kv => fst kv ^ snd kv) c) /\
  (forall k, counted c' k = counted c k + multiplicity k l) /\
  (forall k, In k (map fst c') <-> In k l \/ In k (map fst c)).
Proof.
  induction l as [|x l IH]; intros c Hnd Hnn;
    cbn [fold_left multiplicity In].
  - split; [exact Hnd|]. split; [change (product []) with 1; ring|].
    split; [intros k; lia|intros k; tauto].
  - destruct (count_up_nonneg x c Hnn) as [Hnn' Hprod].
    destruct (IH (count_up x c) (count_up_NoDup x c Hnd) Hnn')
      as (Hnd' & Hp & Hc & Hk).
    split; [exact Hnd'|]. split.
    { rewrite Hp, Hprod. change (product (x :: l)) with (x * product l). ring. }
    split.
    + intros k. rewrite Hc, count_up_counted. lia.
    + intros k. rewrite Hk, count_up_keys. intuition.
Qed.

(** X15: [fact_dict] turns a list of factors into the ascending list of
    the powers [k ^ m], one for each distinct factor [k] occurring [m]
    times; the product of the list is unchanged. *)
Theorem fact_dict_prime_powers (fac_list : list Z) :
  Sorted Z.le (fact_dict fac_list) /\
  product (fact_dict fac_list) = product fac_list /\
  (forall x, In x (fact_dict fac_list) <->
             exists k, In k fac_list /\ x = k ^ multiplicity k fac_list).
Proof.
  unfold fact_dict, Counter.
  destruct (Counter_fold fac_list [] (NoDup_nil _) (Forall_nil _))
    as (Hnd & Hp & Hc & Hk).
  set (c := fold_left (fun c k => count_up k c) fac_list []) in *.
  destruct (sorted_facts (map (fun kv => fst kv ^ snd kv) c))
    as (Hs & Hsp & Hsin).
  split; [exact Hs|]. split.
  - rewrite Hsp, Hp. simpl. ring.
  - intros x. rewrite Hsin, in_map_iff. split.
    + intros ([k v] & <- & Hin). apply counted_In in Hin; [|exact Hnd].
      destruct Hin as [Hkey ->]. exists k. simpl. split.
      * apply Hk in Hkey. destruct Hkey as [?|[]]. assumption.
      * rewrite Hc. reflexivity.
    + intros (k & Hin & ->). exists (k, counted c k). split.
      * simpl. rewrite Hc. reflexivity.
      * apply counted_In; [exact Hnd|]. split; [|reflexivity].
        apply Hk. left. exact Hin.
Qed.

(* ===================================================================== *)
(** ** Properties of the FactorDB helpers *)
(* ===================================================================== *)

Section ServiceFacts.
Variable requests_get : list Service.request -> Z -> outcome bool.
Variable get_factor_list : list Service.request -> Z -> outcome (list Z).
(** The page requests go through. *)
Hypothesis requests_succeed :
  forall log N, exists ok, requests_get log N = Ok ok.

Lemma rounds_log_shift (rounds : nat) (N : Z) (log : list Service.request) :
  rounds_log rounds N ++ Service.Query N :: Service.Submit N :: log =
  Service.Query N :: Service.Submit N :: rounds_log rounds N ++ log.
Proof.
  induction rounds as [|rounds IH]; simpl; [reflexivity|].
  rewrite IH. reflexivity.
Qed.

Lemma iter_rounds_log (rounds : nat) (N : Z) :
  forall log,
  Service.iter_rounds requests_get get_factor_list rounds N log =
  (Ok tt, rounds_log rounds N ++ log).
Proof.
  induction rounds as [|rounds IH]; intros log; simpl; [reflexivity|].
  unfold Service.submit_manual.
  destruct (requests_succeed log N) as [ok ->].
  rewrite IH, rounds_log_shift. reflexivity.
Qed.

Lemma iter_factordb_log (N iter_count : Z) (log : list Service.request) :
  Service.iter_factordb requests_get get_factor_list N iter_count log =
  (Ok (fst (Service.factor_factordb get_factor_list N
              (rounds_log (Z.to_nat iter_count) N ++ log))),
   iter_log iter_count N ++ log).
Proof.
  unfold Service.iter_factordb. rewrite iter_rounds_log. reflexivity.
Qed.

Lemma length_iter_log (iter_count N : Z) :
  length (iter_log iter_count N) = S (2 * Z.to_nat iter_count).
Proof.
  unfold iter_log. simpl. f_equal.
  induction (Z.to_nat iter_count) as [|k IH]; simpl; [reflexivity|].
  rewrite IH. lia.
Qed.
End ServiceFacts.

(** X16: when the page requests go through and the answer at the end of
    the first pass is empty, as it is when the FactorDB client raised,
    [call_factordb] raises [IndexError] from [res[-1]], having made only
    the requests of that pass. *)
Theorem call_factordb_empty_answer
    (requests_get : list Service.request -> Z -> outcome bool)
    (get_factor_list : list Service.request -> Z -> outcome (list Z))
    (N iter_count : Z) (log : list Service.request) :
  (forall log' N', exists ok, requests_get log' N' = Ok ok) ->
  fst (Service.factor_factordb get_factor_list N
         (rounds_log (Z.to_nat iter_count) N ++ log)) = [] ->
  Service.call_factordb requests_get get_factor_list N iter_count log =
  (inr Service.IndexError, iter_log iter_count N ++ log).
Proof.
  intros Hget Hres. unfold Service.call_factordb.
  rewrite (iter_factordb_log requests_get get_factor_list Hget), Hres.
  reflexivity.
Qed.

(** X16 with a client that cannot connect. *)
Lemma call_factordb_empty_answer_witness :
  Service.call_factordb (fun _ _ => Ok true) (fun _ _ => Raise ValueError)
    15 1 [] =
  (inr Service.IndexError,
   [Service.Query 15; Service.Query 15; Service.Submit 15]).
Proof.
  apply (call_factordb_empty_answer (fun _ _ => Ok true)
           (fun _ _ => Raise ValueError) 15 1 []).
  - intros log' N'. exists true. reflexivity.
  - reflexivity.
Defined.

(** X17: the check of [call_factordb] never spares the last pass.  When
    the page requests go through and the first pass ends with a
    non-empty answer, whose last element is [last_factor], the function
    makes a pass for [last_factor], then a pass of 3 rounds for [N]
    whatever [iter_count] is, and returns the answer that last pass ends
    with; that is [4 * iter_count + 9] requests in all. *)
Theorem call_factordb_third_pass
    (requests_get : list Service.request -> Z -> outcome bool)
    (get_factor_list : list Service.request -> Z -> outcome (list Z))
    (N iter_count last_factor : Z) (front : list Z)
    (log : list Service.request) :
  (forall log' N', exists ok, requests_get log' N' = Ok ok) ->
  fst (Service.factor_factordb get_factor_list N
         (rounds_log (Z.to_nat iter_count) N ++ log)) =
    front ++ [last_factor] ->
  let log2 := iter_log iter_count last_factor ++ iter_log iter_count N ++ log in
  Service.call_factordb requests_get get_factor_list N iter_count log =
    (inl (fst (Service.factor_factordb get_factor_list N
                 (rounds_log 3 N ++ log2))),
     iter_log 3 N ++ log2) /\
  length (iter_log 3 N ++ log2) =
    (4 * Z.to_nat iter_count + 9 + length log)%nat.
Proof.
  intros Hget Hres log2. split.
  - unfold Service.call_factordb.
    rewrite (iter_factordb_log requests_get get_factor_list Hget), Hres.
    rewrite rev_app_distr. cbn [rev app].
    rewrite !(iter_factordb_log requests_get get_factor_list Hget).
    reflexivity.
  - unfold log2. rewrite !length_app, !length_iter_log.
    change (Z.to_nat 3) with 3%nat. lia.
Qed.

(** X17 against a service that always answers [3; 5] for 15, with
    [iter_count = 1]. *)
Lemma call_factordb_third_pass_witness :
  fst (Service.call_factordb (fun _ _ => Ok true) (fun _ _ => Ok [3; 5])
         15 1 []) = inl [3; 5] /\
  length (snd (Service.call_factordb (fun _ _ => Ok true)
                 (fun _ _ => Ok [3; 5]) 15 1 [])) = 13%nat.
Proof.
  destruct (call_factordb_third_pass (fun _ _ => Ok true)
              (fun _ _ => Ok [3; 5]) 15 1 5 [3] []) as [Hrun Hlen].
  - intros log' N'. exists true. reflexivity.
  - reflexivity.
  - rewrite Hrun. cbn [fst snd]. split; [reflexivity|exact Hlen].
Defined.

(** X18: an empty answer from FactorDB, which is what [factor_factordb]
    yields when the connection fails, passes the primality test of
    [factor_integer] vacuously: the empty list comes back as the
    factorisation of [N], for every time budget, and [get_factors] pairs
    it with an empty list of prime powers. *)
Theorem empty_answer_accepted (factor_factordb : Z -> list Z)
    (is_prime : Z -> bool) (ecm_factor : Z -> Z -> attempt (list Z))
    (fuel : nat) (N timeout : Z) (max_timeout : option Z) :
  factor_factordb N = [] ->
  factor_integer factor_factordb is_prime ecm_factor fuel N timeout
    max_timeout = Some (Ok []) /\
  get_factors factor_factordb is_prime ecm_factor fuel N timeout
    max_timeout true = Some (Ok ([], Some [])).
Proof.
  intros HN.
  assert (Hfi : factor_integer factor_factordb is_prime ecm_factor fuel N
                  timeout max_timeout = Some (Ok [])).
  { unfold factor_integer. rewrite HN. reflexivity. }
  split; [exact Hfi|]. unfold get_factors. rewrite Hfi. reflexivity.
Qed.

(** X18 for [N = 105] with no fuel and the default [max_timeout]. *)
Lemma empty_answer_accepted_witness :
  factor_integer (fun _ => []) trial_division (fun _ _ => TimesOut)
    0 105 1 None = Some (Ok []).
Proof.
  apply (empty_answer_accepted (fun _ => []) trial_division
           (fun _ _ => TimesOut) 0 105 1 None). reflexivity.
Defined.

(* ===================================================================== *)
(** ** The retry loop at its ceiling *)
(* ===================================================================== *)




